(** * Obfuscation transforms and capture analysis: a shallow embedding

    This development embeds the measurement core of the repository
    ([src/sniffer.py], [src/obfuscation.py]) and states its documented
    properties as theorems.

    Numbers.  Python integers are [Z] or [nat] (lengths).  Timestamps,
    delays and latencies are Python floats in the source; they are read
    here as rationals [Q].  Where a float ends up in an integer, in the
    throughput [int(total_bytes * 8 / duration)], the float operations
    are modelled with their binary64 rounding ([round_float]): there
    rounding can change the result.  Elsewhere the arithmetic is the
    exact one and rounding is outside the model.  The only operation
    that leaves the rationals, [variance ** 0.5], is a parameter of the
    analysis ([pow_half]).  *)

From Stdlib Require Import QArith Qround Qpower Qfield Lqa.
From stdpp Require Import gmap strings list fin_maps.

Local Open Scope Q_scope.

(** ** Python built-ins on numbers *)

(** [sum(xs)]: a left-to-right accumulation starting from [0]. *)
Definition py_sum (xs : list Q) : Q := fold_left Qplus xs 0.

(** [int(x)] on a float: truncation toward zero. *)
Definition py_int (x : Q) : Z := Z.quot (Qnum x) (Zpos (Qden x)).

(** [x > 0] as a test. *)
Definition Qpositive (x : Q) : bool :=
  match 0 ?= x with Lt => true | _ => false end.

(** *** Binary64 rounding

    A finite float is a rational [m * 2 ** e] with [|m| < 2 ** 53] and
    [e >= -1074].  [round_float q] is the float nearest to [q], ties
    going to the even significand, as IEEE 754 prescribes for the
    result of every arithmetic operation.  (A result beyond the largest
    float, which Python turns into [inf], is not modelled.) *)

(** [2 ** e] for any integer [e]. *)
Definition pow2 (e : Z) : Q :=
  if (0 <=? e)%Z then inject_Z (2 ^ e) else 1 # Z.to_pos (2 ^ (- e)).

(** The integer nearest to [x], ties to the even one. *)
Definition round_half_even (x : Q) : Z :=
  let f := Qfloor x in
  match (x - inject_Z f ?= 1 # 2)%Q with
  | Lt => f
  | Eq => if Z.even f then f else (f + 1)%Z
  | Gt => (f + 1)%Z
  end.

(** The integer part of the binary logarithm of [q > 0]. *)
Definition floor_log2 (q : Q) : Z :=
  let k := (Z.log2 (Qnum q) - Z.log2 (Zpos (Qden q)))%Z in
  if Qle_bool (pow2 k) q then k else (k - 1)%Z.

(** The exponent of the float grid around [q > 0]: 53 significant
    bits, and no finer than [2 ** -1074]. *)
Definition float_exponent (q : Q) : Z :=
  Z.max (floor_log2 q - 52) (-1074).

Definition round_float_pos (q : Q) : Q :=
  inject_Z (round_half_even (q / pow2 (float_exponent q)))
  * pow2 (float_exponent q).

Definition round_float (q : Q) : Q :=
  match 0 ?= q with
  | Eq => 0
  | Lt => round_float_pos q
  | Gt => - round_float_pos (- q)
  end.

(** [x - y] and [x / y] on floats, and [float(n)] for an int. *)
Definition float_sub (x y : Q) : Q := round_float (x - y).
Definition float_div (x y : Q) : Q := round_float (x / y).
Definition float_of_int (n : Z) : Q := round_float (inject_Z n).

(** ** Packets ([scapy] packets as the analysis reads them) *)

Module Sniffer.

(** The IP layer of a packet: only the two fields the analysis reads. *)
Record ip_layer := IPLayer {
  ip_src : string;
  ip_dst : string
}.

(** The ICMP layer: [type] (8 = echo request, 0 = echo reply), [id], [seq]. *)
Record icmp_layer := ICMPLayer {
  icmp_type : Z;
  icmp_id : Z;
  icmp_seq : Z
}.

(** A captured packet: [len(pkt)], [pkt.time], and the layers that
    [IP in pkt] / [ICMP in pkt] test for. *)
Record packet := Packet {
  pkt_len : nat;
  pkt_time : Q;
  pkt_ip : option ip_layer;
  pkt_icmp : option icmp_layer
}.

(** Dictionary keys of [req_times]: [(src, dst, id, seq)]. *)
Abbreviation key := (string * string * Z * Z)%type.

(** ** The latency loop (sniffer.py, lines 35-48) *)

(** Loop state: the dictionary [req_times] and the list [rtt_list]. *)
Record latency_state := LatencyState {
  req_times : gmap key Q;
  rtt_list : list Q
}.

Definition latency_init : latency_state :=
  {| req_times := ∅; rtt_list := [] |}.

(** One iteration of [for pkt in packets:] (lines 38-48). *)
Definition latency_step (st : latency_state) (pkt : packet) : latency_state :=
  match pkt_ip pkt, pkt_icmp pkt with
  | Some ip, Some icmp =>
      if (icmp_type icmp =? 8)%Z then
        let k := (ip_src ip, ip_dst ip, icmp_id icmp, icmp_seq icmp) in
        {| req_times := <[k := pkt_time pkt]> (req_times st);
           rtt_list := rtt_list st |}
      else if (icmp_type icmp =? 0)%Z then
        let k := (ip_dst ip, ip_src ip, icmp_id icmp, icmp_seq icmp) in
        match req_times st !! k with
        | Some t0 =>
            let rtt := (pkt_time pkt - t0) * 1000 in
            {| req_times := delete k (req_times st);
               rtt_list := rtt_list st ++ [rtt] |}
        | None => st
        end
      else st
  | _, _ => st
  end.

Definition latency_loop (packets : list packet) : latency_state :=
  fold_left latency_step packets latency_init.

(** ** Request/reply correlation, with positions

    The loop above keeps timestamps only.  To speak about *which*
    packets a sample comes from, the same loop is run once more with
    positions in the trace in place of timestamps ([match_loop]); the
    lemma [latency_loop_match_loop] relates the two runs. *)

(** The key under which an echo request is recorded (line 41), if the
    packet is one. *)
Definition echo_request_key (pkt : packet) : option key :=
  match pkt_ip pkt, pkt_icmp pkt with
  | Some ip, Some icmp =>
      if (icmp_type icmp =? 8)%Z
      then Some (ip_src ip, ip_dst ip, icmp_id icmp, icmp_seq icmp)
      else None
  | _, _ => None
  end.

(** The key an echo reply looks up (line 44), if the packet is one. *)
Definition echo_reply_key (pkt : packet) : option key :=
  match pkt_ip pkt, pkt_icmp pkt with
  | Some ip, Some icmp =>
      if (icmp_type icmp =? 8)%Z then None
      else if (icmp_type icmp =? 0)%Z
      then Some (ip_dst ip, ip_src ip, icmp_id icmp, icmp_seq icmp)
      else None
  | _, _ => None
  end.

(** A packet the loop reacts to under key [k]. *)
Definition touches (pkt : packet) (k : key) : Prop :=
  echo_request_key pkt = Some k \/ echo_reply_key pkt = Some k.

(** A packet the loop skips. *)
Definition not_echo (pkt : packet) : Prop :=
  echo_request_key pkt = None /\ echo_reply_key pkt = None.

(** [reply] answers [request]: both carry IP and ICMP, the types are 8
    and 0, source and destination are swapped, identifier and sequence
    number agree. *)
Definition answers (request reply : packet) : Prop :=
  exists ipq icq ipp icp,
    pkt_ip request = Some ipq /\ pkt_icmp request = Some icq /\
    pkt_ip reply = Some ipp /\ pkt_icmp reply = Some icp /\
    icmp_type icq = 8%Z /\ icmp_type icp = 0%Z /\
    ip_src ipq = ip_dst ipp /\ ip_dst ipq = ip_src ipp /\
    icmp_id icq = icmp_id icp /\ icmp_seq icq = icmp_seq icp.

Record match_state := MatchState {
  pending : gmap key nat;        (* key -> position of the pending request *)
  pairs : list (nat * nat);      (* (request position, reply position) *)
  position : nat                 (* position of the next packet *)
}.

Definition match_init : match_state :=
  {| pending := ∅; pairs := []; position := 0 |}.

Definition match_step (st : match_state) (pkt : packet) : match_state :=
  let n := position st in
  match echo_request_key pkt, echo_reply_key pkt with
  | Some k, _ =>
      {| pending := <[k := n]> (pending st); pairs := pairs st; position := S n |}
  | None, Some k =>
      match pending st !! k with
      | Some i =>
          {| pending := delete k (pending st);
             pairs := pairs st ++ [(i, n)];
             position := S n |}
      | None =>
          {| pending := pending st; pairs := pairs st; position := S n |}
      end
  | None, None =>
      {| pending := pending st; pairs := pairs st; position := S n |}
  end.

Definition match_loop (packets : list packet) : match_state :=
  fold_left match_step packets match_init.

(** The matched (request, reply) positions of a trace, in the order the
    samples are appended. *)
Definition matched_pairs (packets : list packet) : list (nat * nat) :=
  pairs (match_loop packets).

(** [packets[i].time] *)
Definition time_at (packets : list packet) (i : nat) : Q :=
  match packets !! i with Some p => pkt_time p | None => 0 end.

(** The sample of a matched pair. *)
Definition pair_rtt (packets : list packet) (ij : nat * nat) : Q :=
  (time_at packets ij.2 - time_at packets ij.1) * 1000.

(** The relation the two runs keep after every packet: [g] is the run
    with positions, [L] the run of the source loop, [packets] the part
    of the trace read so far. *)
Record matching_inv (packets : list packet) (g : match_state)
    (L : latency_state) : Prop :=
  MatchingInv {
  inv_position : position g = length packets;
  inv_pending : forall k i, pending g !! k = Some i ->
    exists p, packets !! i = Some p /\ echo_request_key p = Some k /\
      forall m q, (i < m)%nat -> packets !! m = Some q -> ~ touches q k;
  inv_fresh : forall k i j, pending g !! k = Some i -> (i, j) ∉ pairs g;
  inv_times : forall k, req_times L !! k = time_at packets <$> pending g !! k;
  inv_pairs : forall i j, (i, j) ∈ pairs g ->
    (i < j < length packets)%nat /\
    exists p q k, packets !! i = Some p /\ packets !! j = Some q /\
      echo_request_key p = Some k /\ echo_reply_key q = Some k /\
      forall m r, (i < m < j)%nat -> packets !! m = Some r -> ~ touches r k;
  inv_rtts : rtt_list L = pair_rtt packets <$> pairs g;
  inv_nodup_requests : NoDup (pairs g).*1;
  inv_nodup_replies : NoDup (pairs g).*2
}.

(** ** The statistics record ([stats], a dict in the source) *)

Record stats := Stats {
  packet_count : nat;
  total_bytes : nat;
  capture_duration_sec : Q;
  throughput_bps : Z;
  packet_sizes : list nat;
  avg_latency_ms : option Q;
  jitter_ms : option Q;
  latency_samples : list Q
}.

(** Lines 18-21: [total_bytes += len(pkt)] over the trace.  (The list
    [times] filled in the same loop is never read.) *)
Definition sum_bytes (packets : list packet) : nat :=
  fold_left (fun acc pkt => (acc + pkt_len pkt)%nat) packets 0%nat.

(** Line 24: [packets[-1].time - packets[0].time if packets else 0]. *)
Definition raw_duration (packets : list packet) : Q :=
  match packets with
  | [] => 0
  | first :: _ => float_sub (pkt_time (List.last packets first)) (pkt_time first)
  end.

Section Analysis.

(** [x ** 0.5] on floats. *)
Variable pow_half : Q -> Q.

(** Lines 52-57: the jitter of a non-empty [rtt_list], given its mean. *)
Definition jitter_of (rtts : list Q) (avg_latency : Q) : Q :=
  if (1 <? length rtts)%nat then
    let mean := avg_latency in
    let variance :=
      py_sum (map (fun x => (x - mean) ^ 2) rtts)
      / inject_Z (Z.of_nat (length rtts) - 1) in
    pow_half variance
  else 0.

Definition analyze_packets (packets : list packet) : stats :=
  let total := sum_bytes packets in
  let duration := raw_duration packets in
  let throughput :=
    if Qpositive duration
    then py_int (float_div (float_of_int (Z.of_nat total * 8)) duration)
    else 0%Z in
  let sizes := map pkt_len packets in
  let rtts := rtt_list (latency_loop packets) in
  match rtts with
  | _ :: _ =>
      let avg_latency := py_sum rtts / inject_Z (Z.of_nat (length rtts)) in
      let jitter := jitter_of rtts avg_latency in
      {| packet_count := length packets;
         total_bytes := total;
         capture_duration_sec := if Qpositive duration then duration else 0;
         throughput_bps := throughput;
         packet_sizes := sizes;
         avg_latency_ms := Some avg_latency;
         jitter_ms := Some jitter;
         latency_samples := rtts |}
  | [] =>
      {| packet_count := length packets;
         total_bytes := total;
         capture_duration_sec := if Qpositive duration then duration else 0;
         throughput_bps := throughput;
         packet_sizes := sizes;
         avg_latency_ms := None;
         jitter_ms := None;
         latency_samples := [] |}
  end.

End Analysis.

(** A rational stand-in for [x ** 0.5], used to run the analysis on
    concrete traces: the integer square root of [n * d] over [d], which
    is the exact root whenever [n / d] is the square of a rational. *)
Definition rational_root (x : Q) : Q :=
  Z.sqrt (Qnum x * Zpos (Qden x)) # Qden x.

(** ** The sample statistics as the specification words them

    These follow the textbook wording of the specification (mean, and
    variance with divisor [n - 1]), not the code; the theorems compare
    them with what [analyze_packets] computes. *)

Fixpoint Qsum (xs : list Q) : Q :=
  match xs with
  | [] => 0
  | x :: xs' => x + Qsum xs'
  end.

Definition arithmetic_mean (xs : list Q) : Q :=
  Qsum xs / inject_Z (Z.of_nat (length xs)).

Definition bessel_variance (xs : list Q) : Q :=
  Qsum (map (fun x => (x - arithmetic_mean xs) * (x - arithmetic_mean xs)) xs)
  / (inject_Z (Z.of_nat (length xs)) - 1).

End Sniffer.


(** ** Obfuscation transforms ([src/obfuscation.py]) *)

Module Obfuscation.

Abbreviation bytes := (list Byte.byte).

(** The two exceptions the transforms raise. *)
Inductive py_error :=
| ValueError (msg : string)
| RuntimeError (msg : string).

(** Results of fallible calls: [inl] is a raised exception. *)
Abbreviation result A := (py_error + A)%type.

(** *** Randomness

    [random.randint], [random.uniform] and [os.urandom] read ambient
    randomness.  A [rand_source] is one state of that randomness: the
    raw integer and the unit-interval number the next draw is derived
    from, and a supply of random bytes.  Every value the library calls
    can return is reached by some source. *)
Record rand_source := RandSource {
  rand_raw : Z;
  rand_unit : Q;
  rand_byte : nat -> Byte.byte
}.

(** [random.randint(a, b)]: an integer in [[a, b]]; [ValueError] on an
    empty range. *)
Definition randint (a b : Z) (g : rand_source) : result Z :=
  if (a <=? b)%Z then inr (a + rand_raw g mod (b - a + 1))%Z
  else inl (ValueError "empty range for randrange()").

(** [random.uniform(a, b)] is [a + (b - a) * random()]. *)
Definition uniform (a b : Q) (g : rand_source) : Q :=
  a + (b - a) * rand_unit g.

(** [os.urandom(n)]: [n] random bytes. *)
Definition urandom (n : nat) (g : rand_source) : bytes :=
  map (rand_byte g) (seq 0 n).

(** *** EncryptionObfuscator *)

Module EncryptionObfuscator.

Record t := Make { key : bytes }.

(** [b'\x01' * 16] *)
Definition default_key : bytes := repeat Byte.x01 16.

(** [len(key) not in (16, 24, 32)] *)
Definition bad_key_length (k : bytes) : bool :=
  negb ((length k =? 16)%nat || (length k =? 24)%nat || (length k =? 32)%nat).

(** [__init__(self, key=None)] (lines 11-17). *)
Definition __init__ (key : option bytes) : result t :=
  let key := match key with None => default_key | Some k => k end in
  if bad_key_length key
  then inl (ValueError "Key must be 16, 24, or 32 bytes long for AES.")
  else inr (Make key).

(** The cipher package ([Crypto.Cipher.AES] in EAX mode), which is not
    part of the repository: an interface of what [encrypt] calls.
    [aes_new k g] is [AES.new(k, AES.MODE_EAX)], drawing its nonce
    from [g]. *)
Record aes_module := AESModule {
  cipher : Type;
  aes_new : bytes -> rand_source -> result cipher;
  cipher_nonce : cipher -> bytes;
  encrypt_and_digest : cipher -> bytes -> bytes * bytes;
  nonce_len : nat;
  tag_len : nat
}.

(** What the package documents for EAX: keys of an AES length are
    accepted, the nonce and the tag have fixed lengths, and the
    ciphertext is as long as the plaintext. *)
Record aes_eax_laws (M : aes_module) : Prop := AESLaws {
  new_accepts : forall k g, bad_key_length k = false ->
                  exists c, aes_new M k g = inr c;
  nonce_length : forall k g c, aes_new M k g = inr c ->
                  length (cipher_nonce M c) = nonce_len M;
  tag_length : forall c data,
                  length (snd (encrypt_and_digest M c data)) = tag_len M;
  ciphertext_length : forall c data,
                  length (fst (encrypt_and_digest M c data)) = length data
}.

(** [encrypt(self, data)] (lines 19-29); [AES] is [None] when the
    import of the package failed. *)
Definition encrypt (AES : option aes_module) (self : t) (data : bytes)
    (g : rand_source) : result bytes :=
  match AES with
  | None => inl (RuntimeError "PyCrypto (PyCryptodome) is not installed for encryption.")
  | Some M =>
      match aes_new M (key self) g with
      | inl e => inl e
      | inr c =>
          let '(ciphertext, tag) := encrypt_and_digest M c data in
          inr (cipher_nonce M c ++ tag ++ ciphertext)
      end
  end.


(** An instance of the interface on which the laws can be checked by
    running it: 16-byte nonce and tag, and a ciphertext that is the
    plaintext reversed.  It stands for the real cipher only in that
    it obeys the same length laws. *)
Definition length_model : aes_module :=
  {| cipher := bytes;
     aes_new := fun k g =>
       if bad_key_length k then inl (ValueError "Incorrect AES key length")
       else inr (urandom 16 g);
     cipher_nonce := fun c => c;
     encrypt_and_digest := fun c data => (rev data, repeat Byte.x00 16);
     nonce_len := 16;
     tag_len := 16 |}.

End EncryptionObfuscator.

(** *** PaddingObfuscator *)

Module PaddingObfuscator.

Record t := Make { min_pad : Z; max_pad : Z }.

(** [__init__(self, min_pad=0, max_pad=50)] *)
Definition __init__ (min_pad max_pad : option Z) : t :=
  Make (default 0%Z min_pad) (default 50%Z max_pad).

(** Line 45: the drawn [pad_length]. *)
Definition pad_length (self : t) (g : rand_source) : result Z :=
  if (0 <? max_pad self)%Z then randint (min_pad self) (max_pad self) g
  else inr 0%Z.

(** [pad(self, data)] (lines 41-49). *)
Definition pad (self : t) (data : bytes) (g : rand_source) : result bytes :=
  match pad_length self g with
  | inl e => inl e
  | inr pad_length =>
      if (pad_length <=? 0)%Z then inr data
      else
        let padding := urandom (Z.to_nat pad_length) g in
        inr (data ++ padding)
  end.

End PaddingObfuscator.

(** *** TrafficShaper *)

Module TrafficShaper.

Record t := Make {
  mode : string;
  min_delay : Q;
  max_delay : Q;
  rate_bps : option Q
}.

(** [__init__(self, mode="random", min_delay=0.01, max_delay=0.1, rate_bps=None)] *)
Definition __init__ (mode : option string) (min_delay max_delay : option Q)
    (rate_bps : option Q) : t :=
  Make (default "random"%string mode) (default (1 # 100) min_delay)
       (default (1 # 10) max_delay) rate_bps.

(** Truth value of an optional float ([None] and [0.0] are false). *)
Definition truthy_rate (r : option Q) : option Q :=
  match r with
  | Some x => if Qeq_bool x 0 then None else Some x
  | None => None
  end.

(** Truth value of an optional int ([None] and [0] are false). *)
Definition truthy_size (s : option Z) : option Z :=
  match s with
  | Some n => if (n =? 0)%Z then None else Some n
  | None => None
  end.

(** [shape(self, packet_size=None)] (lines 66-81).  The method returns
    nothing; its effect is a call of [time.sleep].  The result here is
    the duration passed to [time.sleep], or [None] when the method
    does not sleep. *)
Definition shape (self : t) (packet_size : option Z) (g : rand_source)
    : option Q :=
  if String.eqb (mode self) "random" then
    Some (uniform (min_delay self) (max_delay self) g)
  else if String.eqb (mode self) "constant" then
    match truthy_rate (rate_bps self), truthy_size packet_size with
    | Some rate, Some size =>
        let delay := inject_Z (size * 8) / rate in
        if Qpositive delay then Some delay else None
    | _, _ => Some (min_delay self)
    end
  else None.

End TrafficShaper.

End Obfuscation.

Import Sniffer Obfuscation.

(** ** The rest of the sniffer ([src/sniffer.py]) *)

(** Line 83 of [main]: [(cpu_time / args.duration * 100) if
    args.duration > 0 else 0]. *)
Definition cpu_percent (cpu_time : Q) (duration : Z) : Q :=
  if (0 <? duration)%Z then cpu_time / inject_Z duration * 100 else 0.

(** Packets the latency loop reacts to, as tests. *)
Definition is_echo_request (pkt : packet) : bool :=
  match echo_request_key pkt with Some _ => true | None => false end.

Definition is_echo_reply (pkt : packet) : bool :=
  match echo_reply_key pkt with Some _ => true | None => false end.

Definition is_echo (pkt : packet) : bool :=
  is_echo_request pkt || is_echo_reply pkt.

(** A capture in which every probe is answered before the next one is
    sent: request, reply, request, reply, ... *)
Definition exchange_trace (exchanges : list (packet * packet)) : list packet :=
  flat_map (fun e => [fst e; snd e]) exchanges.

Definition exchange_rtt (e : packet * packet) : Q :=
  (pkt_time (snd e) - pkt_time (fst e)) * 1000.

(** The sleeps of a constant-rate shaper over a run of packets, summed. *)
Definition total_sleep (self : TrafficShaper.t) (sizes : list Z)
    (g : rand_source) : Q :=
  Qsum (map (fun s => default 0 (TrafficShaper.shape self (Some s) g)) sizes).

(** ** The experiment driver ([src/experiment_runner.py]) *)

Module Runner.

(** [libvirt.VIR_IP_ADDR_TYPE_IPV4] *)
Definition VIR_IP_ADDR_TYPE_IPV4 : Z := 0.

(** One entry of an interface's ['addrs'] list, read with
    [addr.get('type')] and [addr.get('addr')]. *)
Record address := Address {
  addr_type : option Z;
  addr_addr : option string
}.

(** The value stored for one interface, read with [info.get('addrs', [])]. *)
Record iface_info := IfaceInfo {
  info_addrs : option (list address)
}.

(** What [domain.interfaceAddresses] answers: the interfaces in the
    order [items()] yields them, or [None] for a [libvirtError]. *)
Abbreviation lease_answer := (option (list (string * iface_info))).

(** The inner loop of [get_domain_ip] (lines 19-21): [Some r] when the
    loop returns [r], [None] when it runs to its end. *)
Fixpoint scan_addrs (addrs : list address) : option (option string) :=
  match addrs with
  | [] => None
  | addr :: rest =>
      match addr_type addr with
      | Some ty =>
          if (ty =? VIR_IP_ADDR_TYPE_IPV4)%Z then Some (addr_addr addr)
          else scan_addrs rest
      | None => scan_addrs rest
      end
  end.

(** The outer loop (line 18). *)
Fixpoint scan_ifaces (ifaces : list (string * iface_info))
    : option (option string) :=
  match ifaces with
  | [] => None
  | (_, info) :: rest =>
      match scan_addrs (default [] (info_addrs info)) with
      | Some r => Some r
      | None => scan_ifaces rest
      end
  end.

(** [get_domain_ip(domain)] (lines 12-22), on the answer of the domain. *)
Definition get_domain_ip (answer : lease_answer) : option string :=
  match answer with
  | None => None
  | Some ifaces =>
      match scan_ifaces ifaces with
      | Some r => r
      | None => None
      end
  end.

(** The entries [get_domain_ip] looks for, and all entries of an answer
    in the order the two loops visit them. *)
Definition is_ipv4 (addr : address) : bool :=
  match addr_type addr with
  | Some ty => (ty =? VIR_IP_ADDR_TYPE_IPV4)%Z
  | None => false
  end.

Definition all_addrs (ifaces : list (string * iface_info)) : list address :=
  flat_map (fun entry => default [] (info_addrs (snd entry))) ifaces.

(** Truth value of [ip]: [None] and the empty string are false. *)
Definition truthy_ip (ip : option string) : option string :=
  match ip with
  | Some s => if String.eqb s "" then None else Some s
  | None => None
  end.

(** A domain, seen through its answers: [domain t] is what
    [interfaceAddresses] answers at second [t]. *)
Abbreviation domain := (nat -> lease_answer).

(** The loop of [wait_for_ip] (lines 26-31) with [remaining] iterations
    left, started at second [now]; [time.sleep(1)] advances the clock.
    The result is the returned value and the second of the return. *)
Fixpoint wait_loop (dom : domain) (remaining : nat) (now : nat)
    : option string * nat :=
  match remaining with
  | O => (None, now)
  | S remaining' =>
      match truthy_ip (get_domain_ip (dom now)) with
      | Some ip => (Some ip, now)
      | None => wait_loop dom remaining' (S now)
      end
  end.

(** [wait_for_ip(domain, timeout=15)] *)
Definition wait_for_ip (dom : domain) (timeout : option Z) (now : nat)
    : option string * nat :=
  wait_loop dom (Z.to_nat (default 15%Z timeout)) now.

(** Lines 40-43 of [run_experiment]. *)
Definition resolve_endpoints (dom_source dom_dest : domain) (now : nat)
    : result (string * string) * nat :=
  let '(src_ip, t1) := wait_for_ip dom_source None now in
  let '(dest_ip, t2) := wait_for_ip dom_dest None t1 in
  match src_ip, dest_ip with
  | Some s, Some d => (inr (s, d), t2)
  | _, _ =>
      (inl (RuntimeError "Could not obtain IP addresses for source/dest VMs."), t2)
  end.

(** The obfuscation tools of a scenario (lines 47-49). *)
Record transforms := Transforms {
  encryptor : option EncryptionObfuscator.t;
  padder : option PaddingObfuscator.t;
  shaper : option TrafficShaper.t
}.

Definition make_transforms (scenario : string) : result transforms :=
  let enc :=
    if String.eqb scenario "encryption" then
      match EncryptionObfuscator.__init__ None with
      | inl e => inl e
      | inr o => inr (Some o)
      end
    else inr None in
  match enc with
  | inl e => inl e
  | inr encryptor =>
      inr {| encryptor := encryptor;
             padder := if String.eqb scenario "padding"
                       then Some (PaddingObfuscator.__init__ None None)
                       else None;
             shaper := if String.eqb scenario "shaping"
                       then Some (TrafficShaper.__init__ (Some "random"%string)
                                    None None None)
                       else None |}
  end.

(** [b'x' * 500] (line 100) *)
Definition base_payload : bytes := repeat Byte.x78 500.

(** Lines 105-109: the payload of one UDP packet.  [g_pad] and [g_enc]
    are the randomness read by the padding and by the cipher. *)
Definition build_payload (AES : option EncryptionObfuscator.aes_module)
    (tr : transforms) (g_pad g_enc : rand_source) : result bytes :=
  let payload := base_payload in
  let padded :=
    match padder tr with
    | Some p => PaddingObfuscator.pad p payload g_pad
    | None => inr payload
    end in
  match padded with
  | inl e => inl e
  | inr payload =>
      match encryptor tr with
      | Some e => EncryptionObfuscator.encrypt AES e payload g_enc
      | None => inr payload
      end
  end.

(** Lines 110-113: the sleep before the packet is sent.  [header_len] is
    what [len(udp_base / payload)] adds to the payload length. *)
Definition shaping_sleep (tr : transforms) (header_len : nat)
    (payload : bytes) (g : rand_source) : option Q :=
  match shaper tr with
  | Some s =>
      TrafficShaper.shape s (Some (Z.of_nat (header_len + length payload))) g
  | None => None
  end.

(** Line 97: [max(1, duration - 2)] *)
Definition send_duration (duration : Z) : Z := Z.max 1 (duration - 2).

(** Lines 121-122 *)
Definition send_cpu_percent (send_cpu_time : Q) (duration : Z) : Q :=
  let send_wall_time := send_duration duration in
  if (0 <? send_wall_time)%Z
  then send_cpu_time / inject_Z send_wall_time * 100
  else 0.

Section Scenarios.

(** [str.lower], [str.strip] and [str.split(',')] *)
Variable str_lower : string -> string.
Variable str_strip : string -> string.
Variable str_split_comma : string -> list string.




End Scenarios.

End Runner.

(** ** Sample inputs *)

(** An echo request and its reply, as the generator sends them. *)
Definition ping (src dst : string) (seq : Z) (t : Q) : packet :=
  Packet 42 t (Some (IPLayer src dst)) (Some (ICMPLayer 8 4660 seq)).

Definition pong (src dst : string) (seq : Z) (t : Q) : packet :=
  Packet 42 t (Some (IPLayer src dst)) (Some (ICMPLayer 0 4660 seq)).

(** A UDP filler packet: IP but no ICMP layer. *)
Definition filler (len : nat) (t : Q) : packet :=
  Packet len t (Some (IPLayer "10.0.0.1" "10.0.0.2")) None.

(** One probe answered after 2.5 ms. *)
Definition trace_one_rtt : list packet :=
  [ping "10.0.0.1" "10.0.0.2" 0 0; pong "10.0.0.2" "10.0.0.1" 0 (1 # 400)].

(** Two packets of 50 bytes, three seconds apart. *)
Definition trace_800_bits_3s : list packet :=
  [filler 50 0; filler 50 3].

(** A request sent twice under one key, then answered once. *)
Definition trace_resent : list packet :=
  [ping "10.0.0.1" "10.0.0.2" 0 0; ping "10.0.0.1" "10.0.0.2" 0 1;
   pong "10.0.0.2" "10.0.0.1" 0 2].

(** Two probes with distinct sequence numbers, both answered after 1 s. *)
Definition trace_equal_rtts : list packet :=
  [ping "10.0.0.1" "10.0.0.2" 0 0; pong "10.0.0.2" "10.0.0.1" 0 1;
   ping "10.0.0.1" "10.0.0.2" 1 2; pong "10.0.0.2" "10.0.0.1" 1 3].

Definition zero_source : rand_source :=
  RandSource 0 0 (fun _ => Byte.x00).

Definition shaper_8kbps : TrafficShaper.t :=
  TrafficShaper.Make "constant" (1 # 100) (1 # 10) (Some 8000).

(** * Properties *)

(** ** Numbers *)

Lemma Qpositive_true x : Qpositive x = true <-> 0 < x.
Proof.
  unfold Qpositive. rewrite Qlt_alt.
  destruct (0 ?= x); split; congruence.
Qed.

Lemma Qpositive_false x : Qpositive x = false <-> ~ 0 < x.
Proof.
  rewrite <- Qpositive_true. destruct (Qpositive x); split; congruence.
Qed.

Lemma py_int_floor x : 0 <= x -> py_int x = Qfloor x.
Proof.
  destruct x as [n d]. unfold Qle, py_int. simpl. intros Hn.
  apply Z.quot_div_nonneg; lia.
Qed.

Lemma py_int_bounds x :
  0 <= x -> inject_Z (py_int x) <= x /\ x < inject_Z (py_int x) + 1.
Proof.
  intros Hx. rewrite (py_int_floor x Hx). split.
  - apply Qfloor_le.
  - change 1 with (inject_Z 1). rewrite <- inject_Z_plus. apply Qlt_floor.
Qed.

Lemma py_int_Qeq x y : 0 <= x -> x == y -> py_int x = py_int y.
Proof.
  intros Hx Hxy. rewrite !py_int_floor; [| rewrite <- Hxy; exact Hx | exact Hx].
  apply Qfloor_comp. exact Hxy.
Qed.

Lemma py_int_inject n : py_int (inject_Z n) = n.
Proof. unfold py_int. simpl. apply Z.quot_1_r. Qed.

Lemma sum_bytes_from (packets : list packet) (acc : nat) :
  fold_left (fun a pkt => (a + pkt_len pkt)%nat) packets acc
  = (acc + sum_list (map pkt_len packets))%nat.
Proof.
  revert acc. induction packets as [| p ps IH]; intros acc; simpl.
  - lia.
  - rewrite IH. lia.
Qed.

Lemma sum_bytes_sum_list packets :
  sum_bytes packets = sum_list (map pkt_len packets).
Proof. unfold sum_bytes. rewrite sum_bytes_from. reflexivity. Qed.

(** ** The statistics record, field by field *)

Section RecordFields.

Variable pow_half : Q -> Q.

Lemma analyze_total_bytes packets :
  total_bytes (analyze_packets pow_half packets) = sum_bytes packets.
Proof. unfold analyze_packets. destruct (rtt_list _); reflexivity. Qed.

Lemma analyze_throughput packets :
  throughput_bps (analyze_packets pow_half packets)
  = if Qpositive (raw_duration packets)
    then py_int (float_div (float_of_int (Z.of_nat (sum_bytes packets) * 8))
                   (raw_duration packets))
    else 0%Z.
Proof. unfold analyze_packets. destruct (rtt_list _); reflexivity. Qed.

Lemma analyze_duration packets :
  capture_duration_sec (analyze_packets pow_half packets)
  = if Qpositive (raw_duration packets) then raw_duration packets else 0.
Proof. unfold analyze_packets. destruct (rtt_list _); reflexivity. Qed.

Lemma analyze_samples packets :
  latency_samples (analyze_packets pow_half packets)
  = rtt_list (latency_loop packets).
Proof. unfold analyze_packets. destruct (rtt_list _); reflexivity. Qed.

Lemma analyze_jitter packets :
  jitter_ms (analyze_packets pow_half packets)
  = match rtt_list (latency_loop packets) with
    | [] => None
    | x :: xs =>
        Some (jitter_of pow_half (x :: xs)
                (py_sum (x :: xs) / inject_Z (Z.of_nat (length (x :: xs)))))
    end.
Proof. unfold analyze_packets. destruct (rtt_list _); reflexivity. Qed.

Lemma analyze_avg_latency packets :
  avg_latency_ms (analyze_packets pow_half packets)
  = match rtt_list (latency_loop packets) with
    | [] => None
    | x :: xs => Some (py_sum (x :: xs) / inject_Z (Z.of_nat (length (x :: xs))))
    end.
Proof. unfold analyze_packets. destruct (rtt_list _); reflexivity. Qed.

End RecordFields.

Lemma bits_over_duration_nonneg (n : nat) (d : Q) :
  0 < d -> 0 <= inject_Z (Z.of_nat n * 8) / d.
Proof.
  intros Hd. apply Qle_shift_div_l; [exact Hd |].
  rewrite Qmult_0_l. unfold Qle. simpl. lia.
Qed.

(** ** Binary64 rounding *)

Lemma pow2_pos (e : Z) : 0 < pow2 e.
Proof.
  unfold pow2. destruct (Z.leb_spec 0 e) as [He | He]; [| reflexivity].
  unfold Qlt. simpl. pose proof (Z.pow_pos_nonneg 2 e). lia.
Qed.

Lemma pow2_nonpos (e : Z) :
  (e <= 0)%Z -> pow2 e == 1 # Z.to_pos (2 ^ (- e)).
Proof.
  unfold pow2. destruct (Z.leb_spec 0 e) as [He | He]; [| reflexivity].
  intros H. assert (e = 0%Z) as -> by lia. reflexivity.
Qed.

Lemma int_le_floor (x : Q) (z : Z) : inject_Z z <= x -> (z <= Qfloor x)%Z.
Proof. intros H. rewrite <- (Qfloor_Z z). apply Qfloor_resp_le, H. Qed.

Lemma floor_le_int (x : Q) (z : Z) : x <= inject_Z z -> (Qfloor x <= z)%Z.
Proof. intros H. rewrite <- (Qfloor_Z z). apply Qfloor_resp_le, H. Qed.

Lemma round_half_even_ge (x : Q) (z : Z) :
  inject_Z z <= x -> (z <= round_half_even x)%Z.
Proof.
  intros H. apply int_le_floor in H. unfold round_half_even.
  destruct (_ ?= _); [destruct (Z.even _) |..]; lia.
Qed.

Lemma round_half_even_le (x : Q) (z : Z) :
  x <= inject_Z z -> (round_half_even x <= z)%Z.
Proof.
  intros H. pose proof (floor_le_int x z H) as Hf.
  assert (Hstrict : 0 < x - inject_Z (Qfloor x) -> (Qfloor x + 1 <= z)%Z).
  { intros Hpos. assert (Hlt : inject_Z (Qfloor x) < inject_Z z) by lra.
    rewrite <- Zlt_Qlt in Hlt. lia. }
  unfold round_half_even.
  destruct (x - inject_Z (Qfloor x) ?= 1 # 2) eqn:E.
  - destruct (Z.even _); [exact Hf |].
    apply Hstrict. apply Qeq_alt in E. rewrite E. reflexivity.
  - exact Hf.
  - apply Hstrict. apply Qgt_alt in E. lra.
Qed.

(** Below [2 ** 53] the float grid is at least as fine as the integers. *)
Lemma floor_log2_below_53 (q : Q) :
  0 < q -> q < inject_Z (2 ^ 53) -> (floor_log2 q <= 52)%Z.
Proof.
  destruct q as [n d]. intros Hn Hq. unfold Qlt in Hn, Hq. simpl in Hn, Hq.
  unfold floor_log2. cbn [Qnum Qden].
  set (k := (Z.log2 n - Z.log2 (Z.pos d))%Z).
  destruct (Z.le_gt_cases k 52) as [Hk | Hk];
    [destruct (Qle_bool _ _); lia |].
  destruct (Z.eq_dec k 53%Z) as [Hk53 | Hk53].
  - rewrite Hk53. destruct (Qle_bool (pow2 53) (n # d)) eqn:T; [| lia].
    exfalso. apply Qle_bool_iff in T.
    change (pow2 53) with (inject_Z (2 ^ 53)) in T.
    unfold Qle in T. simpl in T. simpl in Hq. lia.
  - exfalso.
    assert (Hn0 : (0 < n)%Z) by lia.
    destruct (Z.log2_spec n Hn0) as [Hlo _].
    destruct (Z.log2_spec (Z.pos d) eq_refl) as [_ Hhi].
    pose proof (Z.log2_nonneg (Z.pos d)) as Hb.
    replace (Z.log2 n) with (k - 54 + 54 + Z.log2 (Z.pos d))%Z in Hlo by lia.
    rewrite !Z.pow_add_r in Hlo by lia.
    rewrite Z.pow_succ_r in Hhi by lia.
    assert (Hp : (1 <= 2 ^ (k - 54))%Z)
      by (pose proof (Z.pow_pos_nonneg 2 (k - 54)); lia).
    change (2 ^ 54)%Z with 18014398509481984%Z in Hlo.
    change (2 ^ 53)%Z with 9007199254740992%Z in Hq.
    set (P := (2 ^ Z.log2 (Z.pos d))%Z) in *.
    set (A := (2 ^ (k - 54))%Z) in *.
    assert (HP : (0 < P)%Z) by (apply Z.pow_pos_nonneg; lia).
    nia.
Qed.

Lemma float_exponent_below_53 (q : Q) :
  0 < q -> q < inject_Z (2 ^ 53) -> (float_exponent q <= 0)%Z.
Proof.
  intros H0 H1. pose proof (floor_log2_below_53 q H0 H1).
  unfold float_exponent. lia.
Qed.

(** Rounding a value below [2 ** 53] never crosses an integer. *)
Lemma round_float_pos_between (q : Q) (z : Z) :
  0 < q -> q < inject_Z (2 ^ 53) ->
  (inject_Z z <= q -> inject_Z z <= round_float_pos q) /\
  (q <= inject_Z z -> round_float_pos q <= inject_Z z).
Proof.
  intros H0 H1. unfold round_float_pos.
  pose proof (float_exponent_below_53 q H0 H1) as He.
  pose proof (pow2_pos (float_exponent q)) as Hpos.
  pose proof (pow2_nonpos _ He) as Hs.
  set (s := pow2 (float_exponent q)) in *.
  set (P := Z.to_pos (2 ^ (- float_exponent q))) in *.
  assert (Hscale : forall m, inject_Z (m * Z.pos P) * s == inject_Z m).
  { intros m. rewrite Hs. unfold Qeq. simpl. lia. }
  assert (Hback : forall m, inject_Z m * s == m # P).
  { intros m. rewrite Hs. unfold Qeq. simpl. lia. }
  split; intros Hz.
  - assert (Hx : inject_Z (z * Z.pos P) <= q / s).
    { apply Qle_shift_div_l; [exact Hpos |]. rewrite Hscale. exact Hz. }
    apply round_half_even_ge in Hx. rewrite Hback.
    unfold Qle. simpl. lia.
  - assert (Hx : q / s <= inject_Z (z * Z.pos P)).
    { apply Qle_shift_div_r; [exact Hpos |]. rewrite Hscale. exact Hz. }
    apply round_half_even_le in Hx. rewrite Hback.
    unfold Qle. simpl. lia.
Qed.

Lemma round_float_pos_nonneg (q : Q) : 0 < q -> 0 <= round_float_pos q.
Proof.
  intros H0. unfold round_float_pos.
  pose proof (pow2_pos (float_exponent q)) as Hpos.
  apply Qmult_le_0_compat; [| apply Qlt_le_weak, Hpos].
  assert (Hx : inject_Z 0 <= q / pow2 (float_exponent q)).
  { apply Qle_shift_div_l; [exact Hpos |]. rewrite Qmult_0_l.
    apply Qlt_le_weak, H0. }
  apply round_half_even_ge in Hx. unfold Qle. simpl. lia.
Qed.

Lemma round_float_nonneg (q : Q) : 0 <= q -> 0 <= round_float q.
Proof.
  intros H0. unfold round_float. destruct (0 ?= q) eqn:E.
  - apply Qle_refl.
  - apply round_float_pos_nonneg, Qlt_alt, E.
  - apply Qgt_alt in E. lra.
Qed.

Lemma round_float_between (q : Q) (z : Z) :
  0 <= q -> q < inject_Z (2 ^ 53) ->
  (inject_Z z <= q -> inject_Z z <= round_float q) /\
  (q <= inject_Z z -> round_float q <= inject_Z z).
Proof.
  intros H0 H1. unfold round_float. destruct (0 ?= q) eqn:E.
  - apply Qeq_alt in E. split; intros Hz; lra.
  - apply round_float_pos_between; [apply Qlt_alt, E | exact H1].
  - apply Qgt_alt in E. lra.
Qed.

(** Integers below [2 ** 53] are floats. *)
Lemma float_of_int_exact (z : Z) :
  (0 <= z < 2 ^ 53)%Z -> float_of_int z == inject_Z z.
Proof.
  intros [Hz0 Hz1]. unfold float_of_int.
  assert (H0 : 0 <= inject_Z z) by (unfold Qle; simpl; lia).
  assert (H1 : inject_Z z < inject_Z (2 ^ 53)) by (rewrite <- Zlt_Qlt; exact Hz1).
  destruct (round_float_between (inject_Z z) z H0 H1) as [Hlo Hhi].
  apply Qle_antisym; [apply Hhi | apply Hlo]; apply Qle_refl.
Qed.

(** The float quotient of an integer below [2 ** 53] by a positive
    float, truncated, is the floor or the ceiling of the exact
    quotient when that is below [2 ** 53]. *)
Lemma truncated_float_quotient (bits : Z) (d : Q) :
  (0 <= bits < 2 ^ 53)%Z -> 0 < d ->
  inject_Z bits / d < inject_Z (2 ^ 53) ->
  (Qfloor (inject_Z bits / d)
   <= py_int (float_div (float_of_int bits) d)
   <= Qceiling (inject_Z bits / d))%Z.
Proof.
  intros Hbits Hd Hq. unfold float_div.
  assert (Heq : float_of_int bits / d == inject_Z bits / d)
    by (rewrite (float_of_int_exact bits Hbits); reflexivity).
  assert (H0 : 0 <= float_of_int bits / d).
  { rewrite Heq. apply Qle_shift_div_l; [exact Hd |]. rewrite Qmult_0_l.
    unfold Qle. simpl. lia. }
  assert (H1 : float_of_int bits / d < inject_Z (2 ^ 53)) by (rewrite Heq; exact Hq).
  pose proof (round_float_nonneg _ H0) as Hr.
  rewrite (py_int_floor _ Hr). split.
  - apply int_le_floor.
    apply (proj1 (round_float_between _ (Qfloor (inject_Z bits / d)) H0 H1)).
    rewrite Heq. apply Qfloor_le.
  - apply floor_le_int.
    apply (proj2 (round_float_between _ (Qceiling (inject_Z bits / d)) H0 H1)).
    rewrite Heq. apply Qle_ceiling.
Qed.

(** ** Throughput *)

(** C5, as the claim words it, fails: 100 bytes captured over 3 seconds
    are 800/3 bits per second, and the record holds 266. *)
Lemma throughput_not_exact_quotient :
  0 < raw_duration trace_800_bits_3s /\
  total_bytes (analyze_packets rational_root trace_800_bits_3s) = 100%nat /\
  raw_duration trace_800_bits_3s == 3 /\
  throughput_bps (analyze_packets rational_root trace_800_bits_3s) = 266%Z /\
  ~ inject_Z (throughput_bps (analyze_packets rational_root trace_800_bits_3s))
      == inject_Z (Z.of_nat (total_bytes
                     (analyze_packets rational_root trace_800_bits_3s)) * 8)
         / raw_duration trace_800_bits_3s.
Proof.
  vm_compute. repeat split; try reflexivity; discriminate.
Qed.

(** C5 (amended).  [total_bytes] is the sum of the packet lengths.  When
    the capture duration (last timestamp minus first, as a float) is
    strictly positive, the record reports that duration, and
    [throughput_bps] is the float quotient [total_bytes * 8 / duration]
    truncated to an integer; when the number of bits and the quotient
    are below [2 ** 53] this integer is the floor or the ceiling of the
    exact quotient, so it is within 1 of it and equal to it when the
    quotient is an integer.  Otherwise duration and throughput are both
    exactly 0.  Two packets of 100 bytes one second apart give 1600. *)
Theorem throughput_truncated_float_quotient
    (pow_half : Q -> Q) (trace : list packet) :
  total_bytes (analyze_packets pow_half trace) = sum_list (map pkt_len trace) /\
  (0 < raw_duration trace ->
     capture_duration_sec (analyze_packets pow_half trace) = raw_duration trace /\
     throughput_bps (analyze_packets pow_half trace)
       = py_int (float_div
                   (float_of_int
                      (Z.of_nat (total_bytes (analyze_packets pow_half trace)) * 8))
                   (raw_duration trace)) /\
     ((Z.of_nat (total_bytes (analyze_packets pow_half trace)) * 8 < 2 ^ 53)%Z ->
      inject_Z (Z.of_nat (total_bytes (analyze_packets pow_half trace)) * 8)
        / raw_duration trace < inject_Z (2 ^ 53) ->
      (Qfloor (inject_Z (Z.of_nat (total_bytes (analyze_packets pow_half trace)) * 8)
               / raw_duration trace)
       <= throughput_bps (analyze_packets pow_half trace)
       <= Qceiling (inject_Z (Z.of_nat (total_bytes (analyze_packets pow_half trace)) * 8)
                    / raw_duration trace))%Z)) /\
  (~ 0 < raw_duration trace ->
     capture_duration_sec (analyze_packets pow_half trace) = 0 /\
     throughput_bps (analyze_packets pow_half trace) = 0%Z) /\
  (forall p1 p2,
     trace = [p1; p2] -> pkt_len p1 = 100%nat -> pkt_len p2 = 100%nat ->
     pkt_time p2 - pkt_time p1 == 1 ->
     throughput_bps (analyze_packets pow_half trace) = 1600%Z).
Proof.
  rewrite analyze_total_bytes, analyze_throughput, analyze_duration.
  split; [apply sum_bytes_sum_list |]. split; [| split].
  - intros Hd. apply Qpositive_true in Hd as Hb. rewrite Hb.
    split; [reflexivity |]. split; [reflexivity |].
    intros Hbits Hq. apply truncated_float_quotient; [lia | exact Hd | exact Hq].
  - intros Hd. apply Qpositive_false in Hd. rewrite Hd. split; reflexivity.
  - intros p1 p2 -> H1 H2 Ht.
    assert (Hd : raw_duration [p1; p2] == 1).
    { unfold raw_duration, float_sub. simpl.
      assert (H0 : 0 <= pkt_time p2 - pkt_time p1) by (rewrite Ht; discriminate).
      assert (Hlt : pkt_time p2 - pkt_time p1 < inject_Z (2 ^ 53))
        by (rewrite Ht; reflexivity).
      destruct (round_float_between _ 1%Z H0 Hlt) as [Hlo Hhi].
      apply Qle_antisym; [apply Hhi | apply Hlo]; rewrite Ht; apply Qle_refl. }
    assert (Hpos : 0 < raw_duration [p1; p2]) by (rewrite Hd; reflexivity).
    apply Qpositive_true in Hpos as Hb. rewrite Hb.
    assert (Hs : sum_bytes [p1; p2] = 200%nat)
      by (unfold sum_bytes; simpl; rewrite H1, H2; reflexivity).
    rewrite Hs.
    assert (Hq : inject_Z (Z.of_nat 200 * 8) / raw_duration [p1; p2]
                 == inject_Z 1600) by (rewrite Hd; reflexivity).
    destruct (truncated_float_quotient (Z.of_nat 200 * 8) (raw_duration [p1; p2]))
      as [Hlo Hhi]; [split; [lia | reflexivity] | exact Hpos
                     | rewrite Hq; reflexivity |].
    rewrite (Qfloor_comp _ _ Hq), Qfloor_Z in Hlo.
    rewrite (Qceiling_comp _ _ Hq), Qceiling_Z in Hhi.
    lia.
Qed.

(** The amended statement at work on a one-second capture. *)
Lemma throughput_truncated_float_quotient_witness :
  throughput_bps
    (analyze_packets rational_root [filler 100 (1 # 2); filler 100 (3 # 2)])
  = 1600%Z.
Proof.
  apply (proj2 (proj2 (proj2
           (throughput_truncated_float_quotient rational_root
              [filler 100 (1 # 2); filler 100 (3 # 2)])))
         (filler 100 (1 # 2)) (filler 100 (3 # 2)));
    reflexivity.
Defined.

(** ** The empty trace *)

(** C9.  On the empty trace the analysis returns the record with zero
    counts, zero duration and throughput, no latency and no jitter, and
    an empty sample list. *)
Theorem analyze_empty_trace (pow_half : Q -> Q) :
  analyze_packets pow_half []
  = {| packet_count := 0;
       total_bytes := 0;
       capture_duration_sec := 0;
       throughput_bps := 0;
       packet_sizes := [];
       avg_latency_ms := None;
       jitter_ms := None;
       latency_samples := [] |}.
Proof. reflexivity. Qed.

(** ** Encryption: construction *)

Lemma bad_key_length_false (k : bytes) :
  EncryptionObfuscator.bad_key_length k = false
  <-> length k = 16%nat \/ length k = 24%nat \/ length k = 32%nat.
Proof.
  unfold EncryptionObfuscator.bad_key_length.
  rewrite negb_false_iff, !orb_true_iff, !Nat.eqb_eq. tauto.
Qed.

Lemma bad_key_length_true (k : bytes) :
  EncryptionObfuscator.bad_key_length k = true
  <-> length k <> 16%nat /\ length k <> 24%nat /\ length k <> 32%nat.
Proof.
  unfold EncryptionObfuscator.bad_key_length.
  rewrite negb_true_iff, !orb_false_iff, !Nat.eqb_neq. tauto.
Qed.

(** C8.  Construction raises (and then it is the [ValueError] of the
    key-length check) exactly when a key is passed whose length is none
    of 16, 24, 32; without a key the constructor takes the 16 bytes
    [01 01 .. 01] and succeeds. *)
Theorem init_fails_iff_bad_explicit_key (key : option bytes) :
  ((exists e, EncryptionObfuscator.__init__ key = inl e)
   <-> (exists k, key = Some k /\
          length k <> 16%nat /\ length k <> 24%nat /\ length k <> 32%nat)) /\
  (forall e, EncryptionObfuscator.__init__ key = inl e ->
     e = ValueError "Key must be 16, 24, or 32 bytes long for AES.") /\
  EncryptionObfuscator.__init__ None
    = inr (EncryptionObfuscator.Make (repeat Byte.x01 16)) /\
  length EncryptionObfuscator.default_key = 16%nat.
Proof.
  split; [| split; [| split; reflexivity]].
  - split.
    + intros [e He]. destruct key as [k |]; [| discriminate He].
      exists k. split; [reflexivity |].
      apply bad_key_length_true.
      unfold EncryptionObfuscator.__init__ in He.
      destruct (EncryptionObfuscator.bad_key_length k); [reflexivity | discriminate He].
    + intros (k & -> & Hk). apply bad_key_length_true in Hk.
      unfold EncryptionObfuscator.__init__. rewrite Hk. eauto.
  - intros e He. unfold EncryptionObfuscator.__init__ in He.
    destruct (EncryptionObfuscator.bad_key_length _); congruence.
Qed.

(** A 3-byte key is refused; the statement applied to it. *)
Lemma init_fails_iff_bad_explicit_key_witness :
  exists e, EncryptionObfuscator.__init__ (Some [Byte.x61; Byte.x62; Byte.x63]) = inl e.
Proof.
  apply (proj1 (init_fails_iff_bad_explicit_key (Some [Byte.x61; Byte.x62; Byte.x63]))).
  exists [Byte.x61; Byte.x62; Byte.x63]. simpl. repeat split; lia.
Defined.

(** ** Encryption: output layout *)

(** C7.  With the cipher package present and behaving as documented for
    EAX, a key of 16, 24 or 32 bytes is accepted by the constructor, and
    [encrypt] returns nonce, then tag, then ciphertext; the output is
    [nonce_len + tag_len + len(data)] bytes long, so two calls on inputs
    of equal length give outputs of equal length whatever nonce is
    drawn. *)
Theorem encrypt_layout_and_length
    (M : EncryptionObfuscator.aes_module)
    (laws : EncryptionObfuscator.aes_eax_laws M)
    (k data : bytes) (g : rand_source) :
  length k = 16%nat \/ length k = 24%nat \/ length k = 32%nat ->
  exists self c,
    EncryptionObfuscator.__init__ (Some k) = inr self /\
    EncryptionObfuscator.aes_new M (EncryptionObfuscator.key self) g = inr c /\
    EncryptionObfuscator.encrypt (Some M) self data g
      = inr (EncryptionObfuscator.cipher_nonce M c
             ++ snd (EncryptionObfuscator.encrypt_and_digest M c data)
             ++ fst (EncryptionObfuscator.encrypt_and_digest M c data)) /\
    length (EncryptionObfuscator.cipher_nonce M c) = EncryptionObfuscator.nonce_len M /\
    length (snd (EncryptionObfuscator.encrypt_and_digest M c data))
      = EncryptionObfuscator.tag_len M /\
    length (fst (EncryptionObfuscator.encrypt_and_digest M c data)) = length data /\
    (forall out, EncryptionObfuscator.encrypt (Some M) self data g = inr out ->
       length out
       = (EncryptionObfuscator.nonce_len M + EncryptionObfuscator.tag_len M
          + length data)%nat) /\
    (forall data' g' out out',
       length data' = length data ->
       EncryptionObfuscator.encrypt (Some M) self data g = inr out ->
       EncryptionObfuscator.encrypt (Some M) self data' g' = inr out' ->
       length out' = length out).
Proof.
  intros Hk. apply bad_key_length_false in Hk.
  assert (Hlen : forall d h out,
    EncryptionObfuscator.encrypt (Some M) (EncryptionObfuscator.Make k) d h = inr out ->
    length out = (EncryptionObfuscator.nonce_len M + EncryptionObfuscator.tag_len M
                  + length d)%nat).
  { intros d h out. unfold EncryptionObfuscator.encrypt. simpl.
    destruct (EncryptionObfuscator.aes_new M k h) as [e | c'] eqn:Hnew; [discriminate |].
    pose proof (EncryptionObfuscator.tag_length M laws c' d) as Ht.
    pose proof (EncryptionObfuscator.ciphertext_length M laws c' d) as Hc.
    destruct (EncryptionObfuscator.encrypt_and_digest M c' d) as [ct tag].
    simpl in Ht, Hc. intros [= <-].
    rewrite !length_app, Ht, Hc.
    rewrite (EncryptionObfuscator.nonce_length M laws k h c' Hnew). lia. }
  destruct (EncryptionObfuscator.new_accepts M laws k g Hk) as [c Hc].
  exists (EncryptionObfuscator.Make k), c.
  split; [unfold EncryptionObfuscator.__init__; rewrite Hk; reflexivity |].
  split; [exact Hc |].
  split.
  { unfold EncryptionObfuscator.encrypt. simpl. rewrite Hc.
    destruct (EncryptionObfuscator.encrypt_and_digest M c data); reflexivity. }
  split; [exact (EncryptionObfuscator.nonce_length M laws k g c Hc) |].
  split; [apply (EncryptionObfuscator.tag_length M laws) |].
  split; [apply (EncryptionObfuscator.ciphertext_length M laws) |].
  split; [apply Hlen |].
  intros data' g' out out' Hd Ho Ho'.
  rewrite (Hlen _ _ _ Ho), (Hlen _ _ _ Ho'), Hd. reflexivity.
Qed.

Lemma length_model_laws :
  EncryptionObfuscator.aes_eax_laws EncryptionObfuscator.length_model.
Proof.
  constructor; simpl.
  - intros k g ->. eauto.
  - intros k g c. destruct (EncryptionObfuscator.bad_key_length k); [discriminate |].
    intros [= <-]. unfold urandom. rewrite length_map, length_seq. reflexivity.
  - reflexivity.
  - intros c data. apply length_rev.
Qed.

(** The statement run on the default key and a 3-byte plaintext. *)
Lemma encrypt_layout_and_length_witness :
  (length EncryptionObfuscator.default_key = 16%nat \/
   length EncryptionObfuscator.default_key = 24%nat \/
   length EncryptionObfuscator.default_key = 32%nat) /\
  exists out,
    EncryptionObfuscator.encrypt (Some EncryptionObfuscator.length_model)
      (EncryptionObfuscator.Make EncryptionObfuscator.default_key)
      [Byte.x61; Byte.x62; Byte.x63] zero_source = inr out /\
    length out = 35%nat.
Proof.
  split; [left; reflexivity |].
  destruct (encrypt_layout_and_length EncryptionObfuscator.length_model
              length_model_laws EncryptionObfuscator.default_key
              [Byte.x61; Byte.x62; Byte.x63] zero_source
              (or_introl eq_refl))
    as (self & c & Hinit & _ & Henc & _ & _ & _ & Hlen & _).
  injection Hinit as <-.
  eexists. split; [exact Henc |].
  exact (Hlen _ Henc).
Defined.

(** ** Padding *)

Lemma randint_in_range (a b : Z) (g : rand_source) :
  (a <= b)%Z -> exists r, randint a b g = inr r /\ (a <= r <= b)%Z.
Proof.
  intros Hab. unfold randint.
  destruct (Z.leb_spec a b) as [_ | Hlt]; [| lia].
  eexists. split; [reflexivity |].
  pose proof (Z.mod_pos_bound (rand_raw g) (b - a + 1)). lia.
Qed.

(** Every integer of the range is drawn by some source. *)
Lemma randint_onto (a b r : Z) :
  (a <= r <= b)%Z -> exists g, randint a b g = inr r.
Proof.
  intros Hr. exists (RandSource (r - a) 0 (fun _ => Byte.x00)).
  unfold randint. simpl.
  destruct (Z.leb_spec a b) as [_ | Hlt]; [| lia].
  rewrite Z.mod_small by lia. f_equal. lia.
Qed.

Lemma urandom_length (n : nat) (g : rand_source) : length (urandom n g) = n.
Proof. unfold urandom. rewrite length_map. apply length_seq. Qed.

(** C6.  With [0 <= min_pad <= max_pad], [pad] draws a length [n] in
    [[min_pad, max_pad]] and returns the input followed by [n] random
    bytes, so the output is longer than the input by between [min_pad]
    and [max_pad] bytes; when [max_pad = 0], or when the drawn length is
    0, the result is the input itself. *)
Theorem pad_appends_bounded_suffix
    (self : PaddingObfuscator.t) (data : bytes) (g : rand_source) :
  (0 <= PaddingObfuscator.min_pad self <= PaddingObfuscator.max_pad self)%Z ->
  exists (n : Z) (out : bytes),
    PaddingObfuscator.pad_length self g = inr n /\
    (PaddingObfuscator.min_pad self <= n <= PaddingObfuscator.max_pad self)%Z /\
    PaddingObfuscator.pad self data g = inr out /\
    out = data ++ urandom (Z.to_nat n) g /\
    Z.of_nat (length (urandom (Z.to_nat n) g)) = n /\
    (PaddingObfuscator.min_pad self
       <= Z.of_nat (length out) - Z.of_nat (length data)
       <= PaddingObfuscator.max_pad self)%Z /\
    (n = 0%Z -> out = data) /\
    (PaddingObfuscator.max_pad self = 0%Z -> out = data).
Proof.
  intros [Hmin Hle].
  assert (Hn : exists n, PaddingObfuscator.pad_length self g = inr n /\
            (PaddingObfuscator.min_pad self <= n <= PaddingObfuscator.max_pad self)%Z).
  { unfold PaddingObfuscator.pad_length.
    destruct (Z.ltb_spec 0 (PaddingObfuscator.max_pad self)) as [Hpos | Hzero].
    - apply randint_in_range. exact Hle.
    - exists 0%Z. split; [reflexivity | lia]. }
  destruct Hn as (n & Hdraw & Hrange).
  exists n, (data ++ urandom (Z.to_nat n) g).
  assert (Hlen : Z.of_nat (length (urandom (Z.to_nat n) g)) = n)
    by (rewrite urandom_length; lia).
  split; [exact Hdraw |]. split; [exact Hrange |].
  split.
  { unfold PaddingObfuscator.pad. rewrite Hdraw.
    destruct (Z.leb_spec n 0) as [Hn0 | Hn0]; [| reflexivity].
    assert (n = 0%Z) as -> by lia. simpl. rewrite app_nil_r. reflexivity. }
  split; [reflexivity |]. split; [exact Hlen |].
  split; [rewrite length_app; lia |].
  split.
  - intros ->. simpl. apply app_nil_r.
  - intros Hmax. assert (n = 0%Z) as -> by lia. simpl. apply app_nil_r.
Qed.

(** The statement run on the default bounds [0 .. 50]. *)
Lemma pad_appends_bounded_suffix_witness :
  (0 <= 0 <= 50)%Z /\
  exists out,
    PaddingObfuscator.pad (PaddingObfuscator.__init__ None None)
      [Byte.x78; Byte.x78] (RandSource 3 0 (fun _ => Byte.x2a)) = inr out /\
    (0 <= Z.of_nat (length out) - 2 <= 50)%Z.
Proof.
  split; [lia |].
  destruct (pad_appends_bounded_suffix (PaddingObfuscator.__init__ None None)
              [Byte.x78; Byte.x78] (RandSource 3 0 (fun _ => Byte.x2a)))
    as (n & out & _ & _ & Hpad & _ & _ & Hdiff & _).
  - simpl. lia.
  - exists out. split; [exact Hpad | exact Hdiff].
Defined.

(** ** Shaping *)

(** C4, as the claim words it, fails for the packet size 0: at 8000
    bits per second the claim gives a delay of 0, the method sleeps for
    [min_delay]. *)
Lemma shape_size_zero_waits_min_delay :
  TrafficShaper.mode shaper_8kbps = "constant"%string /\
  TrafficShaper.rate_bps shaper_8kbps = Some 8000 /\
  TrafficShaper.shape shaper_8kbps (Some 0%Z) zero_source = Some (1 # 100) /\
  ~ (1 # 100) == inject_Z (0 * 8) / 8000.
Proof. vm_compute. repeat split; discriminate. Qed.

(** C4 (amended).  In constant mode: with a target rate [R > 0] and a
    packet size [S > 0] the method sleeps [S * 8 / R] seconds; with no
    target rate it sleeps [min_delay], whatever the packet size. *)
Theorem shape_constant_delay
    (self : TrafficShaper.t) (g : rand_source) :
  TrafficShaper.mode self = "constant"%string ->
  (forall (R : Q) (S : Z),
     TrafficShaper.rate_bps self = Some R -> 0 < R -> (0 < S)%Z ->
     TrafficShaper.shape self (Some S) g = Some (inject_Z (S * 8) / R)) /\
  (TrafficShaper.rate_bps self = None ->
   forall packet_size,
     TrafficShaper.shape self packet_size g = Some (TrafficShaper.min_delay self)).
Proof.
  intros Hmode. unfold TrafficShaper.shape. rewrite Hmode. simpl. split.
  - intros R S -> HR HS. simpl.
    assert (HR0 : Qeq_bool R 0 = false).
    { destruct (Qeq_bool R 0) eqn:E; [| reflexivity].
      apply Qeq_bool_eq in E. rewrite E in HR. discriminate HR. }
    rewrite HR0.
    destruct (Z.eqb_spec S 0) as [-> | _]; [lia |].
    assert (Hpos : 0 < inject_Z (S * 8) / R).
    { apply Qlt_shift_div_l; [exact HR |]. rewrite Qmult_0_l.
      unfold Qlt. simpl. lia. }
    apply Qpositive_true in Hpos. rewrite Hpos. reflexivity.
  - intros -> packet_size. reflexivity.
Qed.

(** The statement run at 8000 bits per second on a 500-byte packet. *)
Lemma shape_constant_delay_witness :
  TrafficShaper.mode shaper_8kbps = "constant"%string /\
  TrafficShaper.shape shaper_8kbps (Some 500%Z) zero_source
    = Some (inject_Z (500 * 8) / 8000).
Proof.
  split; [reflexivity |].
  apply (proj1 (shape_constant_delay shaper_8kbps zero_source eq_refl) 8000 500%Z);
    reflexivity.
Defined.

(** ** The latency loop, packet by packet *)

Lemma request_is_no_reply pkt k :
  echo_request_key pkt = Some k -> echo_reply_key pkt = None.
Proof.
  unfold echo_request_key, echo_reply_key.
  destruct (pkt_ip pkt), (pkt_icmp pkt); try discriminate.
  destruct (icmp_type _ =? 8)%Z; [reflexivity | discriminate].
Qed.

Lemma reply_is_no_request pkt k :
  echo_reply_key pkt = Some k -> echo_request_key pkt = None.
Proof.
  intros Hr. destruct (echo_request_key pkt) as [k' |] eqn:Hq; [| reflexivity].
  apply request_is_no_reply in Hq. congruence.
Qed.

Lemma latency_step_request st pkt k :
  echo_request_key pkt = Some k ->
  latency_step st pkt
  = {| req_times := <[k := pkt_time pkt]> (req_times st);
       rtt_list := rtt_list st |}.
Proof.
  unfold echo_request_key, latency_step.
  destruct (pkt_ip pkt), (pkt_icmp pkt); try discriminate.
  destruct (icmp_type _ =? 8)%Z; [| discriminate].
  intros [= <-]. reflexivity.
Qed.

Lemma latency_step_reply st pkt k :
  echo_reply_key pkt = Some k ->
  latency_step st pkt
  = match req_times st !! k with
    | Some t0 =>
        {| req_times := delete k (req_times st);
           rtt_list := rtt_list st ++ [(pkt_time pkt - t0) * 1000] |}
    | None => st
    end.
Proof.
  unfold echo_reply_key, latency_step.
  destruct (pkt_ip pkt), (pkt_icmp pkt); try discriminate.
  destruct (icmp_type _ =? 8)%Z; [discriminate |].
  destruct (icmp_type _ =? 0)%Z; [| discriminate].
  intros [= <-]. reflexivity.
Qed.

Lemma latency_step_not_echo st pkt :
  not_echo pkt -> latency_step st pkt = st.
Proof.
  unfold not_echo, echo_request_key, echo_reply_key, latency_step.
  destruct (pkt_ip pkt), (pkt_icmp pkt); try reflexivity.
  destruct (icmp_type _ =? 8)%Z; [intros [? _]; discriminate |].
  destruct (icmp_type _ =? 0)%Z; [intros [_ ?]; discriminate | reflexivity].
Qed.

Lemma reply_answers_request request reply k :
  echo_request_key request = Some k -> echo_reply_key reply = Some k ->
  answers request reply.
Proof.
  unfold echo_request_key, echo_reply_key, answers.
  destruct (pkt_ip request) as [ipq |], (pkt_icmp request) as [icq |];
    try discriminate.
  destruct (pkt_ip reply) as [ipp |], (pkt_icmp reply) as [icp |];
    try discriminate.
  destruct (Z.eqb_spec (icmp_type icq) 8) as [Hq |]; [| discriminate].
  destruct (Z.eqb_spec (icmp_type icp) 8); [discriminate |].
  destruct (Z.eqb_spec (icmp_type icp) 0) as [Hp |]; [| discriminate].
  intros [= <-] [= E1 E2 E3 E4].
  exists ipq, icq, ipp, icp. repeat split; congruence.
Qed.

Lemma time_at_app_l packets more i :
  (i < length packets)%nat -> time_at (packets ++ more) i = time_at packets i.
Proof.
  intros Hi. unfold time_at. rewrite lookup_app_l by exact Hi. reflexivity.
Qed.

Lemma time_at_length packets pkt more :
  time_at (packets ++ pkt :: more) (length packets) = pkt_time pkt.
Proof. unfold time_at. rewrite list_lookup_middle; reflexivity. Qed.

Lemma time_at_lookup packets i p :
  packets !! i = Some p -> time_at packets i = pkt_time p.
Proof. unfold time_at. intros ->. reflexivity. Qed.

Lemma pair_rtt_app_l packets more i j :
  (i < length packets)%nat -> (j < length packets)%nat ->
  pair_rtt (packets ++ more) (i, j) = pair_rtt packets (i, j).
Proof.
  intros Hi Hj. unfold pair_rtt. simpl. rewrite !time_at_app_l by assumption.
  reflexivity.
Qed.

Lemma pair_rtt_lookup packets i j p q :
  packets !! i = Some p -> packets !! j = Some q ->
  pair_rtt packets (i, j) = (pkt_time q - pkt_time p) * 1000.
Proof.
  intros Hp Hq. unfold pair_rtt. simpl.
  rewrite (time_at_lookup _ _ _ Hp), (time_at_lookup _ _ _ Hq). reflexivity.
Qed.

(** ** The loop invariant *)

Section Invariant.

Implicit Types (packets : list packet) (pkt : packet) (k : key).

(** What the invariant records about one pending request. *)
Lemma pending_entry_snoc packets pkt k i :
  (exists p, packets !! i = Some p /\ echo_request_key p = Some k /\
     forall m q, (i < m)%nat -> packets !! m = Some q -> ~ touches q k) ->
  ~ touches pkt k ->
  exists p, (packets ++ [pkt]) !! i = Some p /\ echo_request_key p = Some k /\
    forall m q, (i < m)%nat -> (packets ++ [pkt]) !! m = Some q -> ~ touches q k.
Proof.
  intros (p & Hp & Hkey & Hlater) Hpkt. exists p.
  split; [apply lookup_app_l_Some, Hp |]. split; [exact Hkey |].
  intros m q Hm Hq. apply lookup_snoc_Some in Hq as [[_ Hq] | [_ <-]].
  - exact (Hlater m q Hm Hq).
  - exact Hpkt.
Qed.

(** What the invariant records about one matched pair. *)
Lemma pair_entry_snoc packets pkt i j :
  ((i < j < length packets)%nat /\
   exists p q k, packets !! i = Some p /\ packets !! j = Some q /\
     echo_request_key p = Some k /\ echo_reply_key q = Some k /\
     forall m r, (i < m < j)%nat -> packets !! m = Some r -> ~ touches r k) ->
  (i < j < length (packets ++ [pkt]))%nat /\
  exists p q k, (packets ++ [pkt]) !! i = Some p /\
    (packets ++ [pkt]) !! j = Some q /\
    echo_request_key p = Some k /\ echo_reply_key q = Some k /\
    forall m r, (i < m < j)%nat -> (packets ++ [pkt]) !! m = Some r ->
      ~ touches r k.
Proof.
  intros (Hij & p & q & k & Hp & Hq & Hpk & Hqk & Hbetween).
  split; [rewrite length_app; simpl; lia |].
  exists p, q, k.
  split; [apply lookup_app_l_Some, Hp |].
  split; [apply lookup_app_l_Some, Hq |].
  split; [exact Hpk |]. split; [exact Hqk |].
  intros m r Hm Hr. rewrite lookup_app_l in Hr by lia.
  exact (Hbetween m r Hm Hr).
Qed.

Lemma pair_rtt_snoc_all packets pkt (ps : list (nat * nat)) :
  (forall i j, (i, j) ∈ ps -> (i < j < length packets)%nat) ->
  pair_rtt (packets ++ [pkt]) <$> ps = pair_rtt packets <$> ps.
Proof.
  induction ps as [| [i j] ps IH]; intros Hps; [reflexivity |].
  rewrite !fmap_cons. f_equal.
  - apply pair_rtt_app_l; specialize (Hps i j (list_elem_of_here _ _)); lia.
  - apply IH. intros i' j' Hin. apply Hps. right. exact Hin.
Qed.

Lemma pending_time_snoc packets pkt g L k :
  matching_inv packets g L ->
  time_at (packets ++ [pkt]) <$> pending g !! k
  = time_at packets <$> pending g !! k.
Proof.
  intros H. destruct (pending g !! k) as [i |] eqn:Hi; [| reflexivity].
  simpl. f_equal. apply time_at_app_l.
  destruct (inv_pending _ _ _ H k i Hi) as (p & Hp & _).
  exact (lookup_lt_Some _ _ _ Hp).
Qed.

Lemma matching_inv_init : matching_inv [] match_init latency_init.
Proof.
  constructor; simpl.
  - reflexivity.
  - intros k i Hk. rewrite lookup_empty in Hk. discriminate.
  - intros k i j Hk. rewrite lookup_empty in Hk. discriminate.
  - intros k. rewrite !lookup_empty. reflexivity.
  - intros i j Hin. inversion Hin.
  - reflexivity.
  - constructor.
  - constructor.
Qed.

(** A packet that touches no pending key leaves both runs as they are. *)
Lemma matching_inv_skip packets g L pkt :
  matching_inv packets g L ->
  (forall k i, pending g !! k = Some i -> ~ touches pkt k) ->
  matching_inv (packets ++ [pkt])
    {| pending := pending g; pairs := pairs g; position := S (position g) |} L.
Proof.
  intros H Hskip. constructor; simpl.
  - rewrite length_app, (inv_position _ _ _ H). simpl. lia.
  - intros k i Hk. apply pending_entry_snoc.
    + exact (inv_pending _ _ _ H k i Hk).
    + exact (Hskip k i Hk).
  - exact (inv_fresh _ _ _ H).
  - intros k. rewrite (pending_time_snoc _ _ _ _ _ H). apply (inv_times _ _ _ H).
  - intros i j Hin. apply pair_entry_snoc, (inv_pairs _ _ _ H), Hin.
  - rewrite pair_rtt_snoc_all; [apply (inv_rtts _ _ _ H) |].
    intros i j Hin. apply (inv_pairs _ _ _ H), Hin.
  - exact (inv_nodup_requests _ _ _ H).
  - exact (inv_nodup_replies _ _ _ H).
Qed.

(** An echo request is recorded under its key, replacing what was there. *)
Lemma matching_inv_request packets g L pkt k :
  matching_inv packets g L ->
  echo_request_key pkt = Some k ->
  matching_inv (packets ++ [pkt])
    {| pending := <[k := position g]> (pending g);
       pairs := pairs g; position := S (position g) |}
    {| req_times := <[k := pkt_time pkt]> (req_times L);
       rtt_list := rtt_list L |}.
Proof.
  intros H Hk. pose proof (inv_position _ _ _ H) as Hpos.
  constructor; simpl.
  - rewrite length_app, Hpos. simpl. lia.
  - intros k' i Hl. destruct (decide (k = k')) as [<- | Hne].
    + rewrite lookup_insert_eq in Hl. injection Hl as <-. rewrite Hpos.
      exists pkt. split; [apply list_lookup_middle; reflexivity |].
      split; [exact Hk |].
      intros m q Hm Hq. apply lookup_lt_Some in Hq.
      rewrite length_app in Hq. simpl in Hq. lia.
    + rewrite lookup_insert_ne in Hl by exact Hne.
      apply pending_entry_snoc; [exact (inv_pending _ _ _ H k' i Hl) |].
      intros [Hq | Hr]; [congruence |].
      rewrite (request_is_no_reply _ _ Hk) in Hr. discriminate.
  - intros k' i j Hl Hin. destruct (decide (k = k')) as [<- | Hne].
    + rewrite lookup_insert_eq in Hl. injection Hl as <-.
      destruct (inv_pairs _ _ _ H _ _ Hin) as [Hij _]. lia.
    + rewrite lookup_insert_ne in Hl by exact Hne.
      exact (inv_fresh _ _ _ H k' i j Hl Hin).
  - intros k'. destruct (decide (k = k')) as [<- | Hne].
    + rewrite !lookup_insert_eq. simpl. rewrite Hpos, time_at_length.
      reflexivity.
    + rewrite !lookup_insert_ne by exact Hne.
      rewrite (pending_time_snoc _ _ _ _ _ H). apply (inv_times _ _ _ H).
  - intros i j Hin. apply pair_entry_snoc, (inv_pairs _ _ _ H), Hin.
  - rewrite pair_rtt_snoc_all; [apply (inv_rtts _ _ _ H) |].
    intros i j Hin. apply (inv_pairs _ _ _ H), Hin.
  - exact (inv_nodup_requests _ _ _ H).
  - exact (inv_nodup_replies _ _ _ H).
Qed.

(** An echo reply whose key is pending yields one pair and clears the key. *)
Lemma matching_inv_reply packets g L pkt k i :
  matching_inv packets g L ->
  echo_reply_key pkt = Some k ->
  pending g !! k = Some i ->
  matching_inv (packets ++ [pkt])
    {| pending := delete k (pending g);
       pairs := pairs g ++ [(i, position g)]; position := S (position g) |}
    {| req_times := delete k (req_times L);
       rtt_list := rtt_list L ++ [(pkt_time pkt - time_at packets i) * 1000] |}.
Proof.
  intros H Hk Hi. pose proof (inv_position _ _ _ H) as Hpos.
  destruct (inv_pending _ _ _ H k i Hi) as (p & Hp & Hpk & Hlater).
  pose proof (lookup_lt_Some _ _ _ Hp) as Hlt.
  constructor; simpl.
  - rewrite length_app, Hpos. simpl. lia.
  - intros k' i' Hl. apply lookup_delete_Some in Hl as [Hne Hl].
    apply pending_entry_snoc; [exact (inv_pending _ _ _ H k' i' Hl) |].
    intros [Hq | Hr]; [| congruence].
    rewrite (reply_is_no_request _ _ Hk) in Hq. discriminate.
  - intros k' i' j' Hl Hin. apply lookup_delete_Some in Hl as [Hne Hl].
    apply elem_of_app in Hin as [Hin | Hin].
    + exact (inv_fresh _ _ _ H k' i' j' Hl Hin).
    + apply list_elem_of_singleton in Hin. injection Hin as -> ->.
      destruct (inv_pending _ _ _ H k' i Hl) as (p' & Hp' & Hpk' & _).
      congruence.
  - intros k'. destruct (decide (k = k')) as [<- | Hne].
    + rewrite !lookup_delete_eq. reflexivity.
    + rewrite !lookup_delete_ne by exact Hne.
      rewrite (pending_time_snoc _ _ _ _ _ H). apply (inv_times _ _ _ H).
  - intros i' j' Hin. apply elem_of_app in Hin as [Hin | Hin].
    + apply pair_entry_snoc, (inv_pairs _ _ _ H), Hin.
    + apply list_elem_of_singleton in Hin. injection Hin as -> ->.
      split; [rewrite length_app; simpl; lia |].
      exists p, pkt, k.
      split; [apply lookup_app_l_Some, Hp |].
      split; [rewrite Hpos; apply list_lookup_middle; reflexivity |].
      split; [exact Hpk |]. split; [exact Hk |].
      intros m r Hm Hr. rewrite lookup_app_l in Hr by lia.
      apply (Hlater m r); [lia | exact Hr].
  - rewrite fmap_app, pair_rtt_snoc_all.
    + rewrite (inv_rtts _ _ _ H). f_equal. simpl. f_equal.
      unfold pair_rtt. simpl.
      rewrite Hpos, time_at_length, time_at_app_l by exact Hlt. reflexivity.
    + intros i' j' Hin. apply (inv_pairs _ _ _ H), Hin.
  - rewrite fmap_app. apply NoDup_app.
    split; [exact (inv_nodup_requests _ _ _ H) |].
    split; [| apply NoDup_singleton].
    intros x Hx Hx'. apply list_elem_of_singleton in Hx'. simpl in Hx'. subst x.
    apply list_elem_of_fmap in Hx as ([i' j'] & Heq & Hin). simpl in Heq. subst i'.
    exact (inv_fresh _ _ _ H k i j' Hi Hin).
  - rewrite fmap_app. apply NoDup_app.
    split; [exact (inv_nodup_replies _ _ _ H) |].
    split; [| apply NoDup_singleton].
    intros x Hx Hx'. apply list_elem_of_singleton in Hx'. simpl in Hx'. subst x.
    apply list_elem_of_fmap in Hx as ([i' j'] & Heq & Hin). simpl in Heq. subst j'.
    destruct (inv_pairs _ _ _ H _ _ Hin) as [Hij _]. lia.
Qed.

Lemma matching_inv_step packets g L pkt :
  matching_inv packets g L ->
  matching_inv (packets ++ [pkt]) (match_step g pkt) (latency_step L pkt).
Proof.
  intros H. unfold match_step.
  destruct (echo_request_key pkt) as [k |] eqn:Hq.
  - rewrite (latency_step_request _ _ _ Hq).
    apply matching_inv_request; assumption.
  - destruct (echo_reply_key pkt) as [k |] eqn:Hr.
    + rewrite (latency_step_reply _ _ _ Hr), (inv_times _ _ _ H k).
      destruct (pending g !! k) as [i |] eqn:Hi; simpl.
      * apply matching_inv_reply; assumption.
      * apply matching_inv_skip; [exact H |].
        intros k' i' Hk' [T | T]; congruence.
    + rewrite latency_step_not_echo by (split; assumption).
      apply matching_inv_skip; [exact H |].
      intros k' i' Hk' [T | T]; congruence.
Qed.

(** The source loop and the loop with positions agree on every trace. *)
Lemma latency_loop_match_loop packets :
  matching_inv packets (match_loop packets) (latency_loop packets).
Proof.
  induction packets as [| pkt packets IH] using rev_ind.
  - exact matching_inv_init.
  - unfold match_loop, latency_loop. rewrite !fold_left_app. simpl.
    apply matching_inv_step, IH.
Qed.

End Invariant.

(** ** Runs of the loop over parts of a trace *)

Lemma match_step_position st pkt :
  position (match_step st pkt) = S (position st).
Proof.
  unfold match_step.
  destruct (echo_request_key pkt); [reflexivity |].
  destruct (echo_reply_key pkt); [| reflexivity].
  destruct (pending st !! _); reflexivity.
Qed.

Lemma match_fold_position (l : list packet) st :
  position (fold_left match_step l st) = (position st + length l)%nat.
Proof.
  revert st. induction l as [| pkt l IH]; intros st; simpl.
  - lia.
  - rewrite IH, match_step_position. lia.
Qed.

Lemma match_loop_position (l : list packet) :
  position (match_loop l) = length l.
Proof. unfold match_loop. rewrite match_fold_position. reflexivity. Qed.

Lemma match_step_untouched st pkt k :
  ~ touches pkt k -> pending (match_step st pkt) !! k = pending st !! k.
Proof.
  intros Hk. unfold match_step.
  destruct (echo_request_key pkt) as [k' |] eqn:Hq; simpl.
  - apply lookup_insert_ne. intros ->. apply Hk. left. exact Hq.
  - destruct (echo_reply_key pkt) as [k' |] eqn:Hr; [| reflexivity].
    destruct (pending st !! k'); [| reflexivity]. simpl.
    apply lookup_delete_ne. intros ->. apply Hk. right. exact Hr.
Qed.

Lemma match_fold_untouched (l : list packet) st k :
  Forall (fun p => ~ touches p k) l ->
  pending (fold_left match_step l st) !! k = pending st !! k.
Proof.
  intros Hl. revert st. induction Hl as [| pkt l Hpkt _ IH]; intros st; simpl.
  - reflexivity.
  - rewrite IH. apply match_step_untouched, Hpkt.
Qed.

Lemma match_step_pairs_grow st pkt :
  exists more, pairs (match_step st pkt) = pairs st ++ more.
Proof.
  unfold match_step.
  destruct (echo_request_key pkt); [exists []; simpl; symmetry; apply app_nil_r |].
  destruct (echo_reply_key pkt); [| exists []; simpl; symmetry; apply app_nil_r].
  destruct (pending st !! _) as [i |]; simpl.
  - eexists. reflexivity.
  - exists []. symmetry. apply app_nil_r.
Qed.

Lemma match_fold_pairs_grow (l : list packet) st :
  exists more, pairs (fold_left match_step l st) = pairs st ++ more.
Proof.
  revert st. induction l as [| pkt l IH]; intros st; simpl.
  - exists []. symmetry. apply app_nil_r.
  - destruct (IH (match_step st pkt)) as [more2 ->].
    destruct (match_step_pairs_grow st pkt) as [more1 ->].
    exists (more1 ++ more2). symmetry. apply app_assoc.
Qed.

Lemma not_echo_touches_nothing pkt k : not_echo pkt -> ~ touches pkt k.
Proof. intros [Hq Hr] [T | T]; congruence. Qed.

Lemma latency_fold_not_echo (l : list packet) st :
  Forall not_echo l -> fold_left latency_step l st = st.
Proof.
  intros Hl. revert st. induction Hl as [| pkt l Hpkt _ IH]; intros st; simpl.
  - reflexivity.
  - rewrite latency_step_not_echo by exact Hpkt. apply IH.
Qed.

Lemma latency_fold_requests (l : list packet) st :
  Forall (fun p => is_Some (echo_request_key p)) l ->
  rtt_list (fold_left latency_step l st) = rtt_list st.
Proof.
  intros Hl. revert st. induction Hl as [| pkt l [k Hk] _ IH]; intros st; simpl.
  - reflexivity.
  - rewrite IH, (latency_step_request _ _ _ Hk). reflexivity.
Qed.

(** A request, then packets that leave its key alone, then the reply:
    the two positions are paired. *)
Lemma isolated_pair_matched pre mid post request reply k :
  echo_request_key request = Some k ->
  echo_reply_key reply = Some k ->
  Forall (fun p => ~ touches p k) mid ->
  (length pre, (length pre + S (length mid))%nat)
    ∈ matched_pairs (pre ++ request :: mid ++ reply :: post).
Proof.
  intros Hq Hr Hmid. unfold matched_pairs, match_loop.
  rewrite fold_left_app. simpl. rewrite fold_left_app. simpl.
  fold (match_loop pre).
  set (s2 := match_step (match_loop pre) request).
  set (s3 := fold_left match_step mid s2).
  assert (Hpend : pending s3 !! k = Some (length pre)).
  { unfold s3. rewrite (match_fold_untouched _ _ _ Hmid).
    unfold s2, match_step. rewrite Hq. simpl.
    rewrite lookup_insert_eq, match_loop_position. reflexivity. }
  assert (Hpos : position s3 = (length pre + S (length mid))%nat).
  { unfold s3. rewrite match_fold_position. unfold s2.
    rewrite match_step_position, match_loop_position. lia. }
  destruct (match_fold_pairs_grow post (match_step s3 reply)) as [more ->].
  apply elem_of_app. left.
  unfold match_step at 1. rewrite (reply_is_no_request _ _ Hr), Hr, Hpend. simpl.
  rewrite Hpos. apply elem_of_app. right. apply list_elem_of_singleton. reflexivity.
Qed.

(** A matched pair occupies one place in the sample list, and no other
    sample uses its request or its reply. *)
Lemma matched_pair_sample (pow_half : Q -> Q) (trace : list packet) i j :
  (i, j) ∈ matched_pairs trace ->
  exists n request reply,
    matched_pairs trace !! n = Some (i, j) /\
    trace !! i = Some request /\ trace !! j = Some reply /\
    latency_samples (analyze_packets pow_half trace) !! n
      = Some ((pkt_time reply - pkt_time request) * 1000) /\
    forall n' i' j', matched_pairs trace !! n' = Some (i', j') ->
      i' = i \/ j' = j -> n' = n.
Proof.
  intros Hin. pose proof (latency_loop_match_loop trace) as H.
  destruct (inv_pairs _ _ _ H i j Hin) as (_ & p & q & k & Hp & Hq & _).
  apply list_elem_of_lookup in Hin as [n Hn].
  exists n, p, q. split; [exact Hn |]. split; [exact Hp |]. split; [exact Hq |].
  split.
  - rewrite analyze_samples, (inv_rtts _ _ _ H), list_lookup_fmap.
    fold (matched_pairs trace). rewrite Hn. simpl.
    rewrite (pair_rtt_lookup _ _ _ _ _ Hp Hq). reflexivity.
  - intros n' i' j' Hn' [-> | ->].
    + apply (NoDup_lookup _ n' n i (inv_nodup_requests _ _ _ H));
        rewrite list_lookup_fmap; fold (matched_pairs trace);
        [rewrite Hn' | rewrite Hn]; reflexivity.
    + apply (NoDup_lookup _ n' n j (inv_nodup_replies _ _ _ H));
        rewrite list_lookup_fmap; fold (matched_pairs trace);
        [rewrite Hn' | rewrite Hn]; reflexivity.
Qed.

Lemma lookup_request_position (pre rest : list packet) request :
  (pre ++ request :: rest) !! length pre = Some request.
Proof. apply list_lookup_middle. reflexivity. Qed.

Lemma lookup_reply_position (pre mid post : list packet) request reply :
  (pre ++ request :: mid ++ reply :: post) !! (length pre + S (length mid))%nat
  = Some reply.
Proof.
  replace (pre ++ request :: mid ++ reply :: post)
    with ((pre ++ request :: mid) ++ reply :: post)
    by (rewrite <- app_assoc; reflexivity).
  apply list_lookup_middle. rewrite length_app. reflexivity.
Qed.

(** The source loop on a request and its reply among packets it skips. *)
Lemma latency_loop_single_exchange pre mid post request reply k :
  echo_request_key request = Some k ->
  echo_reply_key reply = Some k ->
  Forall not_echo pre -> Forall not_echo mid -> Forall not_echo post ->
  rtt_list (latency_loop (pre ++ request :: mid ++ reply :: post))
  = [(pkt_time reply - pkt_time request) * 1000].
Proof.
  intros Hq Hr Hpre Hmid Hpost. unfold latency_loop.
  rewrite fold_left_app. simpl. rewrite fold_left_app. simpl.
  rewrite (latency_fold_not_echo post) by exact Hpost.
  rewrite (latency_fold_not_echo mid) by exact Hmid.
  rewrite (latency_fold_not_echo pre) by exact Hpre.
  rewrite (latency_step_request _ _ _ Hq), (latency_step_reply _ _ _ Hr).
  simpl. rewrite lookup_insert_eq. reflexivity.
Qed.

(** ** Request/reply matching *)

(** C2.  The samples are, in order, the round-trip times of the matched
    pairs.  In every matched pair the reply stands strictly later in the
    trace than the request and answers it (addresses swapped, same
    identifier and sequence number); no packet between the two is a
    request or a reply under the same key, so the first reply wins; no
    request and no reply belongs to two pairs.  Requests that are still
    pending when the trace ends change nothing in the result. *)
Theorem samples_are_matched_pairs (pow_half : Q -> Q) (trace : list packet) :
  latency_samples (analyze_packets pow_half trace)
    = pair_rtt trace <$> matched_pairs trace /\
  (forall i j, (i, j) ∈ matched_pairs trace ->
     (i < j)%nat /\
     exists request reply,
       trace !! i = Some request /\ trace !! j = Some reply /\
       answers request reply /\
       pair_rtt trace (i, j) = (pkt_time reply - pkt_time request) * 1000 /\
       forall m x k, (i < m < j)%nat -> trace !! m = Some x ->
         echo_request_key request = Some k -> ~ touches x k) /\
  NoDup (matched_pairs trace).*1 /\
  NoDup (matched_pairs trace).*2 /\
  (forall unanswered,
     Forall (fun p => is_Some (echo_request_key p)) unanswered ->
     latency_samples (analyze_packets pow_half (trace ++ unanswered))
     = latency_samples (analyze_packets pow_half trace)).
Proof.
  pose proof (latency_loop_match_loop trace) as H.
  split; [rewrite analyze_samples; exact (inv_rtts _ _ _ H) |].
  split.
  { intros i j Hin.
    destruct (inv_pairs _ _ _ H i j Hin)
      as ([Hij _] & p & q & k & Hp & Hq & Hpk & Hqk & Hbetween).
    split; [exact Hij |]. exists p, q.
    split; [exact Hp |]. split; [exact Hq |].
    split; [exact (reply_answers_request _ _ _ Hpk Hqk) |].
    split; [exact (pair_rtt_lookup _ _ _ _ _ Hp Hq) |].
    intros m x k' Hm Hx Hk'. rewrite Hpk in Hk'. injection Hk' as <-.
    exact (Hbetween m x Hm Hx). }
  split; [exact (inv_nodup_requests _ _ _ H) |].
  split; [exact (inv_nodup_replies _ _ _ H) |].
  intros unanswered Hun. rewrite !analyze_samples.
  unfold latency_loop. rewrite fold_left_app.
  apply latency_fold_requests, Hun.
Qed.

(** The statement on a trace with one answered probe followed by one
    that stays unanswered. *)
Lemma samples_are_matched_pairs_witness :
  latency_samples
    (analyze_packets rational_root
       (trace_one_rtt ++ [ping "10.0.0.1" "10.0.0.2" 1 1]))
  = latency_samples (analyze_packets rational_root trace_one_rtt).
Proof.
  apply (proj2 (proj2 (proj2 (proj2
           (samples_are_matched_pairs rational_root trace_one_rtt))))).
  repeat constructor. exists ("10.0.0.1", "10.0.0.2", 4660%Z, 1%Z). reflexivity.
Defined.

(** C3, as the claim words it, fails: [trace_resent] holds a request at
    time 0 and, later, its reply at time 2, yet the only sample is
    [(2 - 1) * 1000]; no sample equals [(2 - 0) * 1000]. *)
Lemma resent_request_hides_first_rtt :
  trace_resent !! 0%nat = Some (ping "10.0.0.1" "10.0.0.2" 0 0) /\
  trace_resent !! 2%nat = Some (pong "10.0.0.2" "10.0.0.1" 0 2) /\
  echo_request_key (ping "10.0.0.1" "10.0.0.2" 0 0)
    = echo_reply_key (pong "10.0.0.2" "10.0.0.1" 0 2) /\
  is_Some (echo_request_key (ping "10.0.0.1" "10.0.0.2" 0 0)) /\
  pkt_time (ping "10.0.0.1" "10.0.0.2" 0 0)
    < pkt_time (pong "10.0.0.2" "10.0.0.1" 0 2) /\
  latency_samples (analyze_packets rational_root trace_resent)
    = [(2 - 1) * 1000] /\
  Forall (fun x => ~ x == (2 - 0) * 1000)
    (latency_samples (analyze_packets rational_root trace_resent)).
Proof.
  split; [reflexivity |]. split; [reflexivity |]. split; [reflexivity |].
  split; [eexists; reflexivity |]. split; [reflexivity |].
  split; [vm_compute; reflexivity |].
  vm_compute. repeat constructor. discriminate.
Qed.

(** Nor need a sample be the only one of its value: two probes answered
    after one second each give the sample 1000 twice. *)
Lemma equal_rtts_appear_twice :
  latency_samples (analyze_packets rational_root trace_equal_rtts)
  = [(1 - 0) * 1000; (3 - 2) * 1000].
Proof. vm_compute. reflexivity. Qed.

(** C3 (amended).  Take a trace with an echo request under key
    [(A, B, id, seq)] and, later, an echo reply that looks up that key,
    such that no packet between the two is a request or a reply under
    the same key.  Then the two are matched: one place of
    [latency_samples] holds [(t1 - t0) * 1000] for this pair, and no
    other sample comes from this request or from this reply.  If the
    trace has no other echo packets, [latency_samples] is that one
    sample. *)
Theorem isolated_pair_rtt (pow_half : Q -> Q)
    (pre mid post : list packet) (request reply : packet) (k : key) :
  echo_request_key request = Some k ->
  echo_reply_key reply = Some k ->
  Forall (fun p => ~ touches p k) mid ->
  (exists n,
     matched_pairs (pre ++ request :: mid ++ reply :: post) !! n
       = Some (length pre, (length pre + S (length mid))%nat) /\
     latency_samples
       (analyze_packets pow_half (pre ++ request :: mid ++ reply :: post)) !! n
       = Some ((pkt_time reply - pkt_time request) * 1000) /\
     forall n' i' j',
       matched_pairs (pre ++ request :: mid ++ reply :: post) !! n'
         = Some (i', j') ->
       i' = length pre \/ j' = (length pre + S (length mid))%nat -> n' = n) /\
  (Forall not_echo pre -> Forall not_echo mid -> Forall not_echo post ->
   latency_samples
     (analyze_packets pow_half (pre ++ request :: mid ++ reply :: post))
   = [(pkt_time reply - pkt_time request) * 1000]).
Proof.
  intros Hq Hr Hmid. split.
  - pose proof (isolated_pair_matched pre mid post _ _ _ Hq Hr Hmid) as Hin.
    destruct (matched_pair_sample pow_half _ _ _ Hin)
      as (n & p & q & Hn & Hp & Hq' & Hs & Huniq).
    rewrite lookup_request_position in Hp. injection Hp as <-.
    rewrite lookup_reply_position in Hq'. injection Hq' as <-.
    exists n. split; [exact Hn |]. split; [exact Hs | exact Huniq].
  - intros Hpre Hmid' Hpost. rewrite analyze_samples.
    apply (latency_loop_single_exchange _ _ _ _ _ k); assumption.
Qed.

(** The amended statement on a probe, a filler packet, and the reply. *)
Lemma isolated_pair_rtt_witness :
  latency_samples
    (analyze_packets rational_root
       ([] ++ ping "10.0.0.1" "10.0.0.2" 0 0
           :: [filler 500 (1 # 1000)]
           ++ pong "10.0.0.2" "10.0.0.1" 0 (1 # 400) :: []))
  = [((1 # 400) - 0) * 1000].
Proof.
  assert (Hmid : Forall
            (fun p => ~ touches p ("10.0.0.1", "10.0.0.2", 4660%Z, 0%Z))
            [filler 500 (1 # 1000)]).
  { repeat constructor. apply not_echo_touches_nothing. split; reflexivity. }
  apply (proj2 (isolated_pair_rtt rational_root [] [filler 500 (1 # 1000)] []
                  (ping "10.0.0.1" "10.0.0.2" 0 0)
                  (pong "10.0.0.2" "10.0.0.1" 0 (1 # 400))
                  ("10.0.0.1", "10.0.0.2", 4660%Z, 0%Z)
                  eq_refl eq_refl Hmid));
    repeat constructor.
Defined.

(** ** A request sent twice *)

(** A position that is neither pending nor paired stays so. *)
Lemma match_step_never_again st pkt i :
  (i < position st)%nat ->
  (forall k, pending st !! k <> Some i) ->
  (forall j, (i, j) ∉ pairs st) ->
  (forall k, pending (match_step st pkt) !! k <> Some i) /\
  (forall j, (i, j) ∉ pairs (match_step st pkt)).
Proof.
  intros Hpos Hpend Hpairs. unfold match_step.
  destruct (echo_request_key pkt) as [k |]; simpl.
  - split; [| exact Hpairs].
    intros k'. destruct (decide (k = k')) as [<- | Hne].
    + rewrite lookup_insert_eq. intros [= E]. lia.
    + rewrite lookup_insert_ne by exact Hne. apply Hpend.
  - destruct (echo_reply_key pkt) as [k |]; [| split; assumption].
    destruct (pending st !! k) as [i' |] eqn:Hi'; simpl; [| split; assumption].
    split.
    + intros k' Hk'. apply lookup_delete_Some in Hk' as [_ Hk'].
      exact (Hpend k' Hk').
    + intros j Hin. apply elem_of_app in Hin as [Hin | Hin].
      * exact (Hpairs j Hin).
      * apply list_elem_of_singleton in Hin. injection Hin as -> _.
        exact (Hpend k Hi').
Qed.

Lemma match_fold_never_again (l : list packet) st i :
  (i < position st)%nat ->
  (forall k, pending st !! k <> Some i) ->
  (forall j, (i, j) ∉ pairs st) ->
  forall j, (i, j) ∉ pairs (fold_left match_step l st).
Proof.
  revert st. induction l as [| pkt l IH]; intros st Hpos Hpend Hpairs; simpl.
  - exact Hpairs.
  - destruct (match_step_never_again st pkt i Hpos Hpend Hpairs) as [Hp Hq].
    apply IH; [rewrite match_step_position; lia | exact Hp | exact Hq].
Qed.

(** After a request and packets that leave its key alone, the key is
    pending at the request's position. *)
Lemma pending_after_request pre mid request k :
  echo_request_key request = Some k ->
  Forall (fun p => ~ touches p k) mid ->
  pending (match_loop (pre ++ request :: mid)) !! k = Some (length pre).
Proof.
  intros Hq Hmid. unfold match_loop. rewrite fold_left_app. simpl.
  rewrite (match_fold_untouched _ _ _ Hmid).
  fold (match_loop pre). unfold match_step. rewrite Hq. simpl.
  rewrite lookup_insert_eq, match_loop_position. reflexivity.
Qed.

(** A request that is sent again before any reply is never paired. *)
Lemma overwritten_request_unmatched pre mid1 rest first second k :
  echo_request_key first = Some k ->
  echo_request_key second = Some k ->
  Forall (fun p => ~ touches p k) mid1 ->
  forall j, (length pre, j) ∉ matched_pairs ((pre ++ first :: mid1) ++ second :: rest).
Proof.
  intros Hq1 Hq2 Hmid1. unfold matched_pairs, match_loop.
  rewrite fold_left_app. simpl. fold (match_loop (pre ++ first :: mid1)).
  pose proof (latency_loop_match_loop (pre ++ first :: mid1)) as H.
  pose proof (pending_after_request pre mid1 first k Hq1 Hmid1) as Hpend.
  assert (Hlen : length (pre ++ first :: mid1) = (length pre + S (length mid1))%nat)
    by (rewrite length_app; reflexivity).
  apply match_fold_never_again.
  - rewrite match_step_position, match_loop_position, Hlen. lia.
  - intros k'. unfold match_step. rewrite Hq2. simpl.
    destruct (decide (k = k')) as [<- | Hne].
    + rewrite lookup_insert_eq, match_loop_position, Hlen. intros [= E]. lia.
    + rewrite lookup_insert_ne by exact Hne. intros Hk'.
      destruct (inv_pending _ _ _ H k' _ Hk') as (p & Hp & Hpk & _).
      rewrite lookup_request_position in Hp. congruence.
  - intros j. unfold match_step. rewrite Hq2. simpl.
    exact (inv_fresh _ _ _ H k _ j Hpend).
Qed.

(** C10.  Let a trace hold two echo requests under one key and then one
    echo reply that looks up that key, with no other request or reply
    under the key in between.  The second request replaces the pending
    entry of the first; the reply is paired with the second request and
    its sample is [(t2 - t1) * 1000]; the first request is paired with
    nothing.  If the trace has no other echo packets, these three
    packets produce exactly one sample, [(t2 - t1) * 1000]. *)
Theorem resent_request_overwrites (pow_half : Q -> Q)
    (pre mid1 mid2 post : list packet) (first second reply : packet) (k : key) :
  echo_request_key first = Some k ->
  echo_request_key second = Some k ->
  echo_reply_key reply = Some k ->
  Forall (fun p => ~ touches p k) mid1 ->
  Forall (fun p => ~ touches p k) mid2 ->
  req_times (latency_loop (pre ++ first :: mid1)) !! k = Some (pkt_time first) /\
  req_times (latency_loop ((pre ++ first :: mid1) ++ [second])) !! k
    = Some (pkt_time second) /\
  (exists n,
     matched_pairs ((pre ++ first :: mid1) ++ second :: mid2 ++ reply :: post) !! n
       = Some (length (pre ++ first :: mid1),
               (length (pre ++ first :: mid1) + S (length mid2))%nat) /\
     latency_samples
       (analyze_packets pow_half
          ((pre ++ first :: mid1) ++ second :: mid2 ++ reply :: post)) !! n
       = Some ((pkt_time reply - pkt_time second) * 1000) /\
     forall n' i' j',
       matched_pairs ((pre ++ first :: mid1) ++ second :: mid2 ++ reply :: post) !! n'
         = Some (i', j') ->
       i' = length (pre ++ first :: mid1) \/
       j' = (length (pre ++ first :: mid1) + S (length mid2))%nat -> n' = n) /\
  (forall j,
     (length pre, j)
       ∉ matched_pairs ((pre ++ first :: mid1) ++ second :: mid2 ++ reply :: post)) /\
  (Forall not_echo pre -> Forall not_echo mid1 ->
   Forall not_echo mid2 -> Forall not_echo post ->
   latency_samples
     (analyze_packets pow_half
        ((pre ++ first :: mid1) ++ second :: mid2 ++ reply :: post))
   = [(pkt_time reply - pkt_time second) * 1000]).
Proof.
  intros Hq1 Hq2 Hr Hmid1 Hmid2.
  split.
  { pose proof (latency_loop_match_loop (pre ++ first :: mid1)) as H.
    rewrite (inv_times _ _ _ H k), (pending_after_request _ _ _ _ Hq1 Hmid1).
    simpl. f_equal. apply time_at_lookup, lookup_request_position. }
  split.
  { unfold latency_loop. rewrite fold_left_app. simpl.
    rewrite (latency_step_request _ _ _ Hq2). simpl. apply lookup_insert_eq. }
  split.
  { pose proof (isolated_pair_matched (pre ++ first :: mid1) mid2 post
                  _ _ _ Hq2 Hr Hmid2) as Hin.
    destruct (matched_pair_sample pow_half _ _ _ Hin)
      as (n & p & q & Hn & Hp & Hq' & Hs & Huniq).
    rewrite lookup_request_position in Hp. injection Hp as <-.
    rewrite lookup_reply_position in Hq'. injection Hq' as <-.
    exists n. split; [exact Hn |]. split; [exact Hs | exact Huniq]. }
  split.
  { apply (overwritten_request_unmatched _ _ _ _ _ k); assumption. }
  intros Hpre Hm1 Hm2 Hpost. rewrite analyze_samples. unfold latency_loop.
  rewrite !fold_left_app. simpl. rewrite !fold_left_app. simpl.
  rewrite (latency_fold_not_echo post) by exact Hpost.
  rewrite (latency_fold_not_echo mid2) by exact Hm2.
  rewrite (latency_fold_not_echo mid1) by exact Hm1.
  rewrite (latency_fold_not_echo pre) by exact Hpre.
  rewrite (latency_step_request _ _ _ Hq1), (latency_step_request _ _ _ Hq2),
    (latency_step_reply _ _ _ Hr).
  simpl. rewrite lookup_insert_eq. reflexivity.
Qed.

(** The statement on the request sent at times 0 and 1 and answered at
    time 2. *)
Lemma resent_request_overwrites_witness :
  latency_samples (analyze_packets rational_root trace_resent)
  = [(2 - 1) * 1000].
Proof.
  assert (Hnone : Forall
            (fun p => ~ touches p ("10.0.0.1", "10.0.0.2", 4660%Z, 0%Z)) [])
    by constructor.
  apply (proj2 (proj2 (proj2 (proj2
           (resent_request_overwrites rational_root [] [] [] []
              (ping "10.0.0.1" "10.0.0.2" 0 0)
              (ping "10.0.0.1" "10.0.0.2" 0 1)
              (pong "10.0.0.2" "10.0.0.1" 0 2)
              ("10.0.0.1", "10.0.0.2", 4660%Z, 0%Z)
              eq_refl eq_refl eq_refl Hnone Hnone)))));
    constructor.
Defined.

(** ** Jitter *)

Lemma py_sum_from (xs : list Q) (acc : Q) :
  fold_left Qplus xs acc == acc + Qsum xs.
Proof.
  revert acc. induction xs as [| x xs IH]; intros acc; simpl.
  - ring.
  - rewrite IH. ring.
Qed.

Lemma py_sum_Qsum (xs : list Q) : py_sum xs == Qsum xs.
Proof. unfold py_sum. rewrite py_sum_from. ring. Qed.

Lemma Qsum_map_ext (f g : Q -> Q) (xs : list Q) :
  (forall x, f x == g x) -> Qsum (map f xs) == Qsum (map g xs).
Proof.
  intros Hfg. induction xs as [| x xs IH]; simpl.
  - reflexivity.
  - rewrite IH, (Hfg x). reflexivity.
Qed.

Lemma py_mean_is_arithmetic_mean (xs : list Q) :
  py_sum xs / inject_Z (Z.of_nat (length xs)) == arithmetic_mean xs.
Proof. unfold arithmetic_mean. rewrite py_sum_Qsum. reflexivity. Qed.

Lemma py_variance_is_bessel_variance (xs : list Q) :
  py_sum (map (fun x => (x - py_sum xs / inject_Z (Z.of_nat (length xs))) ^ 2) xs)
    / inject_Z (Z.of_nat (length xs) - 1)
  == bessel_variance xs.
Proof.
  unfold bessel_variance. rewrite py_sum_Qsum.
  assert (Hd : inject_Z (Z.of_nat (length xs) - 1)
               == inject_Z (Z.of_nat (length xs)) - 1).
  { unfold Z.sub. rewrite inject_Z_plus, inject_Z_opp. reflexivity. }
  rewrite Hd.
  rewrite (Qsum_map_ext _
             (fun x => (x - arithmetic_mean xs) * (x - arithmetic_mean xs))).
  - reflexivity.
  - intros x. rewrite py_mean_is_arithmetic_mean. simpl. reflexivity.
Qed.

(** C1, as the claim words it, fails: a trace with exactly one matched
    probe has jitter 0, not null. *)
Lemma one_sample_jitter_is_zero :
  length (latency_samples (analyze_packets rational_root trace_one_rtt)) = 1%nat /\
  jitter_ms (analyze_packets rational_root trace_one_rtt) = Some 0 /\
  jitter_ms (analyze_packets rational_root trace_one_rtt) <> None.
Proof.
  split; [vm_compute; reflexivity |].
  split; [vm_compute; reflexivity | vm_compute; discriminate].
Qed.

(** C1 (amended).  With no RTT sample [jitter_ms] is null; with exactly
    one sample it is 0; with two or more samples it is the square root
    ([** 0.5]) of the variance of the samples about their arithmetic
    mean with divisor [n - 1], that is, their Bessel-corrected sample
    standard deviation. *)
Theorem jitter_by_sample_count (pow_half : Q -> Q) (trace : list packet) :
  (length (latency_samples (analyze_packets pow_half trace)) = 0%nat ->
   jitter_ms (analyze_packets pow_half trace) = None) /\
  (length (latency_samples (analyze_packets pow_half trace)) = 1%nat ->
   jitter_ms (analyze_packets pow_half trace) = Some 0) /\
  ((2 <= length (latency_samples (analyze_packets pow_half trace)))%nat ->
   exists variance,
     jitter_ms (analyze_packets pow_half trace) = Some (pow_half variance) /\
     variance == bessel_variance (latency_samples (analyze_packets pow_half trace))).
Proof.
  rewrite analyze_samples, analyze_jitter.
  destruct (rtt_list (latency_loop trace)) as [| x [| y xs]].
  - split; [reflexivity |]. split; simpl; intros Hn; lia.
  - split; [discriminate |]. split; [reflexivity |]. simpl. intros Hn. lia.
  - split; [discriminate |]. split; [discriminate |]. intros _.
    eexists. split.
    + unfold jitter_of. reflexivity.
    + apply py_variance_is_bessel_variance.
Qed.

(** The amended statement on two probes answered after 1 s and 3 s. *)
Lemma jitter_by_sample_count_witness :
  exists variance,
    jitter_ms
      (analyze_packets rational_root
         [ping "10.0.0.1" "10.0.0.2" 0 0; pong "10.0.0.2" "10.0.0.1" 0 1;
          ping "10.0.0.1" "10.0.0.2" 1 2; pong "10.0.0.2" "10.0.0.1" 1 5])
    = Some (rational_root variance) /\
    variance == bessel_variance [1000; 3000].
Proof.
  apply (proj2 (proj2
           (jitter_by_sample_count rational_root
              [ping "10.0.0.1" "10.0.0.2" 0 0; pong "10.0.0.2" "10.0.0.1" 0 1;
               ping "10.0.0.1" "10.0.0.2" 1 2; pong "10.0.0.2" "10.0.0.1" 1 5]))).
  vm_compute. lia.
Defined.

(** The loop never compares timestamps: a reply that stands later in the
    trace is matched even when its timestamp is the earlier one, and the
    sample is then negative. *)
Lemma matching_ignores_timestamps :
  latency_samples
    (analyze_packets rational_root
       [ping "10.0.0.1" "10.0.0.2" 0 5; pong "10.0.0.2" "10.0.0.1" 0 3])
  = [(3 - 5) * 1000].
Proof. vm_compute. reflexivity. Qed.

(** * Further properties of the analysis *)

Lemma analyze_packet_sizes (pow_half : Q -> Q) packets :
  packet_sizes (analyze_packets pow_half packets) = map pkt_len packets.
Proof. unfold analyze_packets. destruct (rtt_list _); reflexivity. Qed.

Lemma analyze_packet_count (pow_half : Q -> Q) packets :
  packet_count (analyze_packets pow_half packets) = length packets.
Proof. unfold analyze_packets. destruct (rtt_list _); reflexivity. Qed.

(** X1.  [avg_latency_ms] is null exactly when there is no sample, and
    then [jitter_ms] is null as well; otherwise it is the arithmetic
    mean of [latency_samples]. *)
Theorem avg_latency_is_mean (pow_half : Q -> Q) (trace : list packet) :
  (avg_latency_ms (analyze_packets pow_half trace) = None
   <-> latency_samples (analyze_packets pow_half trace) = []) /\
  (jitter_ms (analyze_packets pow_half trace) = None
   <-> avg_latency_ms (analyze_packets pow_half trace) = None) /\
  (forall m, avg_latency_ms (analyze_packets pow_half trace) = Some m ->
     m == arithmetic_mean (latency_samples (analyze_packets pow_half trace))).
Proof.
  rewrite analyze_samples, analyze_jitter, analyze_avg_latency.
  destruct (rtt_list (latency_loop trace)) as [| x xs].
  - split; [tauto |]. split; [tauto |]. intros m Hm. discriminate Hm.
  - split; [split; discriminate |]. split; [split; discriminate |].
    intros m [= <-]. apply py_mean_is_arithmetic_mean.
Qed.

(** X2.  The counters of the record agree with each other:
    [packet_sizes] has [packet_count] entries and they add up to
    [total_bytes]. *)
Theorem record_counters_agree (pow_half : Q -> Q) (trace : list packet) :
  packet_count (analyze_packets pow_half trace) = length trace /\
  length (packet_sizes (analyze_packets pow_half trace))
    = packet_count (analyze_packets pow_half trace) /\
  sum_list (packet_sizes (analyze_packets pow_half trace))
    = total_bytes (analyze_packets pow_half trace).
Proof.
  rewrite analyze_packet_sizes, analyze_packet_count, analyze_total_bytes.
  split; [reflexivity |]. split; [apply length_map |].
  symmetry. apply sum_bytes_sum_list.
Qed.

(** X3.  Whatever the timestamps (also when the last packet carries an
    earlier time than the first), the reported duration and throughput
    are never negative. *)
Theorem throughput_and_duration_nonneg (pow_half : Q -> Q) (trace : list packet) :
  (0 <= throughput_bps (analyze_packets pow_half trace))%Z /\
  0 <= capture_duration_sec (analyze_packets pow_half trace).
Proof.
  rewrite analyze_throughput, analyze_duration.
  destruct (Qpositive (raw_duration trace)) eqn:Hd.
  - apply Qpositive_true in Hd. split; [| apply Qlt_le_weak, Hd].
    assert (Hr : 0 <= float_div (float_of_int (Z.of_nat (sum_bytes trace) * 8))
                        (raw_duration trace)).
    { apply round_float_nonneg. apply Qle_shift_div_l; [exact Hd |].
      rewrite Qmult_0_l. apply round_float_nonneg. unfold Qle. simpl. lia. }
    rewrite (py_int_floor _ Hr). apply int_le_floor. exact Hr.
  - split; [lia | apply Qle_refl].
Qed.

(** ** Captures in parts *)

Lemma latency_step_shift st pkt :
  latency_step st pkt
  = {| req_times :=
         req_times (latency_step {| req_times := req_times st; rtt_list := [] |} pkt);
       rtt_list :=
         rtt_list st
         ++ rtt_list (latency_step {| req_times := req_times st; rtt_list := [] |} pkt) |}.
Proof.
  destruct st as [m r].
  destruct (echo_request_key pkt) as [k |] eqn:Hq.
  - rewrite !(latency_step_request _ _ _ Hq). simpl. rewrite app_nil_r. reflexivity.
  - destruct (echo_reply_key pkt) as [k |] eqn:Hr.
    + rewrite !(latency_step_reply _ _ _ Hr). simpl.
      destruct (m !! k); simpl; [reflexivity | rewrite app_nil_r; reflexivity].
    + rewrite !latency_step_not_echo by (split; assumption).
      simpl. rewrite app_nil_r. reflexivity.
Qed.

Lemma latency_fold_shift (l : list packet) st :
  fold_left latency_step l st
  = {| req_times :=
         req_times (fold_left latency_step l
                      {| req_times := req_times st; rtt_list := [] |});
       rtt_list :=
         rtt_list st
         ++ rtt_list (fold_left latency_step l
                        {| req_times := req_times st; rtt_list := [] |}) |}.
Proof.
  revert st. induction l as [| pkt l IH]; intros st; simpl.
  - destruct st. simpl. rewrite app_nil_r. reflexivity.
  - rewrite (IH (latency_step st pkt)).
    rewrite (IH (latency_step {| req_times := req_times st; rtt_list := [] |} pkt)).
    rewrite (latency_step_shift st pkt). simpl.
    rewrite app_assoc. reflexivity.
Qed.

(** X4.  Packets captured later never change the samples already
    produced: the samples of a capture are a prefix of the samples of
    every longer capture. *)
Theorem samples_only_grow (pow_half : Q -> Q) (trace later : list packet) :
  exists more,
    latency_samples (analyze_packets pow_half (trace ++ later))
    = latency_samples (analyze_packets pow_half trace) ++ more.
Proof.
  rewrite !analyze_samples. unfold latency_loop. rewrite fold_left_app.
  rewrite latency_fold_shift. simpl. eexists. reflexivity.
Qed.

(** X5.  If no request is pending at the end of a capture, the samples
    of that capture followed by another are the samples of the first
    followed by the samples of the second. *)
Theorem samples_of_concatenation (pow_half : Q -> Q) (first second : list packet) :
  req_times (latency_loop first) = ∅ ->
  latency_samples (analyze_packets pow_half (first ++ second))
  = latency_samples (analyze_packets pow_half first)
    ++ latency_samples (analyze_packets pow_half second).
Proof.
  intros Hempty. rewrite !analyze_samples. unfold latency_loop at 1.
  rewrite fold_left_app. fold (latency_loop first).
  rewrite latency_fold_shift. simpl. rewrite Hempty. reflexivity.
Qed.

Lemma samples_of_concatenation_witness :
  latency_samples (analyze_packets rational_root (trace_one_rtt ++ trace_resent))
  = latency_samples (analyze_packets rational_root trace_one_rtt)
    ++ latency_samples (analyze_packets rational_root trace_resent).
Proof.
  apply (samples_of_concatenation rational_root trace_one_rtt trace_resent).
  vm_compute. reflexivity.
Defined.

(** ** How many samples *)

Lemma is_echo_request_true pkt :
  is_echo_request pkt = true <-> is_Some (echo_request_key pkt).
Proof.
  unfold is_echo_request. destruct (echo_request_key pkt); split;
    try reflexivity; try discriminate; eauto.
  intros [k Hk]. discriminate Hk.
Qed.

Lemma is_echo_false pkt : is_echo pkt = false <-> not_echo pkt.
Proof.
  unfold is_echo, is_echo_request, is_echo_reply, not_echo.
  destruct (echo_request_key pkt), (echo_reply_key pkt); simpl;
    split; try discriminate; try tauto; intros [? ?]; discriminate.
Qed.

Lemma request_and_reply_exclusive pkt :
  is_echo_request pkt && is_echo_reply pkt = false.
Proof.
  unfold is_echo_request, is_echo_reply.
  destruct (echo_request_key pkt) as [k |] eqn:Hq; [| reflexivity].
  rewrite (request_is_no_reply _ _ Hq). reflexivity.
Qed.

(** Each sample uses up one request and one reply. *)
Lemma latency_fold_counts (l : list packet) st :
  (length (rtt_list (fold_left latency_step l st))
   + size (req_times (fold_left latency_step l st))
   <= length (rtt_list st) + size (req_times st)
      + length (List.filter is_echo_request l))%nat /\
  (length (rtt_list (fold_left latency_step l st))
   <= length (rtt_list st) + length (List.filter is_echo_reply l))%nat.
Proof.
  revert st. induction l as [| pkt l IH]; intros st; simpl; [lia |].
  specialize (IH (latency_step st pkt)).
  unfold is_echo_request at 1, is_echo_reply at 1.
  destruct (echo_request_key pkt) as [k |] eqn:Hq.
  - rewrite (request_is_no_reply _ _ Hq).
    rewrite (latency_step_request _ _ _ Hq) in IH |- *. simpl in IH |- *.
    rewrite map_size_insert in IH.
    destruct (req_times st !! k); simpl in IH; lia.
  - destruct (echo_reply_key pkt) as [k |] eqn:Hr.
    + rewrite (latency_step_reply _ _ _ Hr) in IH |- *.
      destruct (req_times st !! k) as [t0 |] eqn:Hk; simpl in IH |- *.
      * rewrite map_size_delete, Hk in IH. simpl in IH.
        rewrite length_app in IH. simpl in IH.
        assert (size (req_times st) <> 0%nat).
        { intros Hz. apply map_size_empty_inv in Hz. rewrite Hz in Hk.
          rewrite lookup_empty in Hk. discriminate Hk. }
        lia.
      * lia.
    + rewrite latency_step_not_echo in IH |- * by (split; assumption). lia.
Qed.

(** X6.  There are never more samples than echo requests in the trace,
    nor more than echo replies; so a trace of [n] packets gives at most
    [n / 2] samples, and a trace without echo requests gives none. *)
Theorem sample_count_bounded (pow_half : Q -> Q) (trace : list packet) :
  (length (latency_samples (analyze_packets pow_half trace))
   <= length (List.filter is_echo_request trace))%nat /\
  (length (latency_samples (analyze_packets pow_half trace))
   <= length (List.filter is_echo_reply trace))%nat /\
  (2 * length (latency_samples (analyze_packets pow_half trace))
   <= length trace)%nat.
Proof.
  rewrite analyze_samples.
  destruct (latency_fold_counts trace latency_init) as [H1 H2].
  fold (latency_loop trace) in H1, H2. simpl in H1, H2.
  rewrite map_size_empty in H1.
  assert (Hsplit : (length (List.filter is_echo_request trace)
                    + length (List.filter is_echo_reply trace)
                    <= length trace)%nat).
  { clear. induction trace as [| pkt l IH]; simpl; [lia |].
    pose proof (request_and_reply_exclusive pkt) as Hex.
    destruct (is_echo_request pkt), (is_echo_reply pkt); simpl in *;
      try discriminate; lia. }
  lia.
Qed.

(** ** Traffic that is not ICMP echo *)

Lemma latency_fold_filter_echo (l : list packet) st :
  fold_left latency_step (List.filter is_echo l) st = fold_left latency_step l st.
Proof.
  revert st. induction l as [| pkt l IH]; intros st; simpl; [reflexivity |].
  destruct (is_echo pkt) eqn:He; simpl.
  - apply IH.
  - apply is_echo_false in He. rewrite (latency_step_not_echo _ _ He). apply IH.
Qed.

(** X7.  Packets that are not ICMP echo requests or replies over IP (the
    UDP filler traffic, for one) have no influence on the latency
    figures: dropping them all from the trace leaves the samples, the
    average latency and the jitter as they are. *)
Theorem latency_ignores_other_traffic (pow_half : Q -> Q) (trace : list packet) :
  latency_samples (analyze_packets pow_half (List.filter is_echo trace))
    = latency_samples (analyze_packets pow_half trace) /\
  avg_latency_ms (analyze_packets pow_half (List.filter is_echo trace))
    = avg_latency_ms (analyze_packets pow_half trace) /\
  jitter_ms (analyze_packets pow_half (List.filter is_echo trace))
    = jitter_ms (analyze_packets pow_half trace).
Proof.
  rewrite !analyze_samples, !analyze_avg_latency, !analyze_jitter.
  unfold latency_loop. rewrite latency_fold_filter_echo.
  split; [reflexivity |]. split; reflexivity.
Qed.

(** ** Timestamps in order *)

(** X8.  If the timestamps never decrease along the trace, no sample is
    negative. *)
Theorem ordered_capture_nonneg_samples (pow_half : Q -> Q) (trace : list packet) :
  (forall i j p q, (i < j)%nat -> trace !! i = Some p -> trace !! j = Some q ->
     pkt_time p <= pkt_time q) ->
  Forall (fun x => 0 <= x) (latency_samples (analyze_packets pow_half trace)).
Proof.
  intros Hsorted. pose proof (latency_loop_match_loop trace) as H.
  rewrite analyze_samples, (inv_rtts _ _ _ H).
  apply Forall_fmap, Forall_forall. intros [i j] Hin.
  destruct (inv_pairs _ _ _ H i j Hin) as ([Hij _] & p & q & k & Hp & Hq & _).
  simpl. rewrite (pair_rtt_lookup _ _ _ _ _ Hp Hq).
  pose proof (Hsorted i j p q Hij Hp Hq). lra.
Qed.

Lemma ordered_capture_nonneg_samples_witness :
  Forall (fun x => 0 <= x)
    (latency_samples (analyze_packets rational_root trace_one_rtt)).
Proof.
  apply (ordered_capture_nonneg_samples rational_root trace_one_rtt).
  intros [| [| i]] [| [| j]] p q Hij Hp Hq; try lia;
    try discriminate Hq; try discriminate Hp.
  injection Hp as <-. injection Hq as <-. vm_compute. discriminate.
Defined.

(** ** Probes answered one after the other *)

Lemma latency_fold_exchanges (es : list (packet * packet)) (r : list Q) :
  Forall (fun e => exists k, echo_request_key (fst e) = Some k /\
                             echo_reply_key (snd e) = Some k) es ->
  fold_left latency_step (exchange_trace es) {| req_times := ∅; rtt_list := r |}
  = {| req_times := ∅; rtt_list := r ++ map exchange_rtt es |}.
Proof.
  intros Hes. revert r. induction Hes as [| [rq rp] es (k & Hq & Hr) _ IH];
    intros r; simpl.
  - rewrite app_nil_r. reflexivity.
  - simpl in Hq, Hr.
    rewrite (latency_step_request _ _ _ Hq), (latency_step_reply _ _ _ Hr).
    simpl. rewrite lookup_insert_eq, delete_insert_eq, delete_empty.
    fold (exchange_trace es). rewrite IH, <- app_assoc. reflexivity.
Qed.

(** X9.  When every probe is answered before the next one is sent
    (request, reply, request, reply, ...), each exchange gives its
    sample, in order, whether or not keys repeat, and nothing is left
    pending. *)
Theorem answered_probes_all_measured (pow_half : Q -> Q)
    (exchanges : list (packet * packet)) :
  Forall (fun e => exists k, echo_request_key (fst e) = Some k /\
                             echo_reply_key (snd e) = Some k) exchanges ->
  latency_samples (analyze_packets pow_half (exchange_trace exchanges))
    = map exchange_rtt exchanges /\
  req_times (latency_loop (exchange_trace exchanges)) = ∅.
Proof.
  intros Hes. rewrite analyze_samples. unfold latency_loop, latency_init.
  rewrite (latency_fold_exchanges _ _ Hes). split; reflexivity.
Qed.

Lemma answered_probes_all_measured_witness :
  latency_samples
    (analyze_packets rational_root
       (exchange_trace
          [(ping "10.0.0.1" "10.0.0.2" 0 0, pong "10.0.0.2" "10.0.0.1" 0 (1 # 500));
           (ping "10.0.0.1" "10.0.0.2" 1 (1 # 5),
            pong "10.0.0.2" "10.0.0.1" 1 (203 # 1000))]))
  = map exchange_rtt
      [(ping "10.0.0.1" "10.0.0.2" 0 0, pong "10.0.0.2" "10.0.0.1" 0 (1 # 500));
       (ping "10.0.0.1" "10.0.0.2" 1 (1 # 5),
        pong "10.0.0.2" "10.0.0.1" 1 (203 # 1000))].
Proof.
  refine (proj1 (answered_probes_all_measured rational_root
    [(ping "10.0.0.1" "10.0.0.2" 0 0, pong "10.0.0.2" "10.0.0.1" 0 (1 # 500));
     (ping "10.0.0.1" "10.0.0.2" 1 (1 # 5),
      pong "10.0.0.2" "10.0.0.1" 1 (203 # 1000))] _)).
  repeat (constructor; [eexists; split; reflexivity |]). constructor.
Defined.

(** * Further properties of the transforms *)

(** ** Padding with any bounds *)

(** X10.  [pad] raises (the [ValueError] of [random.randint]) exactly
    when [0 < max_pad < min_pad]; with [max_pad <= 0] it never raises,
    whatever [min_pad] is. *)
Theorem pad_raises_iff_empty_range
    (self : PaddingObfuscator.t) (data : bytes) (g : rand_source) :
  (exists e, PaddingObfuscator.pad self data g = inl e)
  <-> (0 < PaddingObfuscator.max_pad self < PaddingObfuscator.min_pad self)%Z.
Proof.
  unfold PaddingObfuscator.pad, PaddingObfuscator.pad_length, randint.
  destruct (Z.ltb_spec 0 (PaddingObfuscator.max_pad self)) as [Hpos | Hle].
  - destruct (Z.leb_spec (PaddingObfuscator.min_pad self)
                         (PaddingObfuscator.max_pad self)) as [Hmm | Hmm].
    + split; [| lia]. intros [e He].
      destruct (_ <=? 0)%Z; discriminate He.
    + split; [lia |]. intros _. eauto.
  - split; [| lia]. intros [e He]. discriminate He.
Qed.

Lemma pad_raises_iff_empty_range_witness :
  exists e,
    PaddingObfuscator.pad (PaddingObfuscator.Make 9 4) [Byte.x78] zero_source
    = inl e.
Proof.
  apply (proj2 (pad_raises_iff_empty_range (PaddingObfuscator.Make 9 4)
                  [Byte.x78] zero_source)).
  simpl. lia.
Defined.

(** X11.  Whenever [pad] returns, with any bounds, the result is the
    input followed by at most [max_pad] further bytes: the input is
    never shortened or altered, cutting the result back to the input's
    length gives the input, and for [max_pad <= 0] the result is the
    input. *)
Theorem pad_extends_input
    (self : PaddingObfuscator.t) (data out : bytes) (g : rand_source) :
  PaddingObfuscator.pad self data g = inr out ->
  exists suffix,
    out = data ++ suffix /\
    (Z.of_nat (length suffix) <= Z.max 0 (PaddingObfuscator.max_pad self))%Z /\
    take (length data) out = data /\
    ((PaddingObfuscator.max_pad self <= 0)%Z -> out = data).
Proof.
  unfold PaddingObfuscator.pad, PaddingObfuscator.pad_length, randint.
  assert (Hnil : exists suffix, data = data ++ suffix /\
            (Z.of_nat (length suffix) <= Z.max 0 (PaddingObfuscator.max_pad self))%Z /\
            take (length data) data = data /\
            ((PaddingObfuscator.max_pad self <= 0)%Z -> data = data)).
  { exists []. rewrite app_nil_r, firstn_all. simpl. split; [reflexivity |].
    split; [lia |]. split; reflexivity. }
  destruct (Z.ltb_spec 0 (PaddingObfuscator.max_pad self)) as [Hpos | Hle].
  - destruct (Z.leb_spec (PaddingObfuscator.min_pad self)
                         (PaddingObfuscator.max_pad self)) as [Hmm | Hmm];
      [| discriminate].
    pose proof (Z.mod_pos_bound (rand_raw g)
                  (PaddingObfuscator.max_pad self - PaddingObfuscator.min_pad self + 1))
      as Hmod.
    destruct (Z.leb_spec
                (PaddingObfuscator.min_pad self
                 + rand_raw g `mod` (PaddingObfuscator.max_pad self
                                     - PaddingObfuscator.min_pad self + 1)) 0)
      as [Hr | Hr]; intros [= <-]; [exact Hnil |].
    eexists. split; [reflexivity |].
    split; [rewrite urandom_length; lia |].
    split; [apply take_app_length | lia].
  - simpl. intros [= <-]. exact Hnil.
Qed.

Lemma pad_extends_input_witness :
  exists suffix,
    [Byte.x78; Byte.x00; Byte.x00; Byte.x00] = [Byte.x78] ++ suffix /\
    (Z.of_nat (length suffix) <= Z.max 0 5)%Z /\
    take 1 [Byte.x78; Byte.x00; Byte.x00; Byte.x00] = [Byte.x78] /\
    ((5 <= 0)%Z -> [Byte.x78; Byte.x00; Byte.x00; Byte.x00] = [Byte.x78]).
Proof.
  apply (pad_extends_input (PaddingObfuscator.Make 2 5) [Byte.x78]
           [Byte.x78; Byte.x00; Byte.x00; Byte.x00]
           (RandSource 1 0 (fun _ => Byte.x00))).
  reflexivity.
Defined.

(** ** Shaping in the other modes *)

(** X12.  In random mode the sleep lies between [min_delay] and
    [max_delay] (for [min_delay <= max_delay] and a draw of the unit
    interval) and does not depend on the packet size. *)
Theorem shape_random_within_bounds
    (self : TrafficShaper.t) (packet_size : option Z) (g : rand_source) :
  TrafficShaper.mode self = "random"%string ->
  TrafficShaper.min_delay self <= TrafficShaper.max_delay self ->
  0 <= rand_unit g -> rand_unit g <= 1 ->
  exists d,
    TrafficShaper.shape self packet_size g = Some d /\
    TrafficShaper.shape self None g = Some d /\
    TrafficShaper.min_delay self <= d /\ d <= TrafficShaper.max_delay self.
Proof.
  intros Hmode Hle Hu0 Hu1. unfold TrafficShaper.shape. rewrite Hmode. simpl.
  eexists. split; [reflexivity |]. split; [reflexivity |].
  unfold uniform.
  set (a := TrafficShaper.min_delay self) in *.
  set (b := TrafficShaper.max_delay self) in *.
  set (u := rand_unit g) in *.
  split; nra.
Qed.

Lemma shape_random_within_bounds_witness :
  exists d,
    TrafficShaper.shape (TrafficShaper.__init__ None None None None)
      (Some 528%Z) (RandSource 0 (1 # 2) (fun _ => Byte.x00)) = Some d /\
    TrafficShaper.shape (TrafficShaper.__init__ None None None None)
      None (RandSource 0 (1 # 2) (fun _ => Byte.x00)) = Some d /\
    (1 # 100) <= d /\ d <= (1 # 10).
Proof.
  apply (shape_random_within_bounds (TrafficShaper.__init__ None None None None)
           (Some 528%Z) (RandSource 0 (1 # 2) (fun _ => Byte.x00)));
    [reflexivity | | |]; vm_compute; discriminate.
Defined.

Lemma truthy_rate_Some (r : option Q) (R : Q) :
  TrafficShaper.truthy_rate r = Some R <-> r = Some R /\ ~ R == 0.
Proof.
  unfold TrafficShaper.truthy_rate. destruct r as [x |].
  - destruct (Qeq_bool x 0) eqn:E.
    + apply Qeq_bool_eq in E. split; [discriminate |].
      intros [[= ->] Hne]. contradiction.
    + apply Qeq_bool_neq in E. split.
      * intros [= ->]. split; [reflexivity | exact E].
      * intros [[= ->] _]. reflexivity.
  - split; [discriminate | intros [? _]; discriminate].
Qed.




Lemma shape_constant_rate_step
    (self : TrafficShaper.t) (g : rand_source) (R : Q) (S : Z) :
  TrafficShaper.mode self = "constant"%string ->
  TrafficShaper.rate_bps self = Some R -> 0 < R -> (0 < S)%Z ->
  TrafficShaper.shape self (Some S) g = Some (inject_Z (S * 8) / R).
Proof.
  intros Hmode HR HRpos HS. unfold TrafficShaper.shape. rewrite Hmode. simpl.
  assert (Hrate : TrafficShaper.truthy_rate (TrafficShaper.rate_bps self) = Some R).
  { apply truthy_rate_Some. split; [exact HR |]. intros E.
    rewrite E in HRpos. discriminate HRpos. }
  rewrite Hrate. simpl.
  destruct (Z.eqb_spec S 0) as [-> | _]; [lia |].
  assert (Hpos : 0 < inject_Z (S * 8) / R).
  { apply Qlt_shift_div_l; [exact HRpos |]. rewrite Qmult_0_l.
    unfold Qlt. simpl. lia. }
  apply Qpositive_true in Hpos. rewrite Hpos. reflexivity.
Qed.

(** X14.  A constant-rate shaper keeps its rate over a run of packets:
    with rate [R > 0] and positive packet sizes, the sleeps add up to
    the total number of bits divided by [R]. *)
Theorem constant_rate_total_sleep
    (self : TrafficShaper.t) (sizes : list Z) (g : rand_source) (R : Q) :
  TrafficShaper.mode self = "constant"%string ->
  TrafficShaper.rate_bps self = Some R -> 0 < R ->
  Forall (fun s => (0 < s)%Z) sizes ->
  total_sleep self sizes g == inject_Z (8 * fold_right Z.add 0%Z sizes) / R.
Proof.
  intros Hmode HR HRpos Hsizes. unfold total_sleep.
  induction Hsizes as [| s sizes Hs _ IH]; simpl.
  - change (inject_Z (8 * 0)) with 0. unfold Qdiv. rewrite Qmult_0_l. reflexivity.
  - rewrite IH, (shape_constant_rate_step self g R s Hmode HR HRpos Hs). simpl.
    replace (8 * (s + fold_right Z.add 0%Z sizes))%Z
      with (s * 8 + 8 * fold_right Z.add 0%Z sizes)%Z by lia.
    rewrite inject_Z_plus.
    generalize (inject_Z (s * 8)) (inject_Z (8 * fold_right Z.add 0%Z sizes)).
    intros a b. unfold Qdiv. ring.
Qed.

Lemma constant_rate_total_sleep_witness :
  total_sleep shaper_8kbps [500; 1500]%Z zero_source
  == inject_Z (8 * fold_right Z.add 0%Z [500; 1500]%Z) / 8000.
Proof.
  apply (constant_rate_total_sleep shaper_8kbps [500; 1500]%Z zero_source 8000);
    [reflexivity | reflexivity | reflexivity |].
  repeat constructor.
Defined.

(** ** Encryption objects and their output *)

(** X15.  Every object the constructor returns holds a key of 16, 24 or
    32 bytes, and it is the key that was passed (the default key when
    none was). *)
Theorem constructed_key_is_valid
    (key : option bytes) (self : EncryptionObfuscator.t) :
  EncryptionObfuscator.__init__ key = inr self ->
  EncryptionObfuscator.key self = default EncryptionObfuscator.default_key key /\
  (length (EncryptionObfuscator.key self) = 16%nat \/
   length (EncryptionObfuscator.key self) = 24%nat \/
   length (EncryptionObfuscator.key self) = 32%nat).
Proof.
  unfold EncryptionObfuscator.__init__.
  destruct (EncryptionObfuscator.bad_key_length _) eqn:Hk; [discriminate |].
  intros [= <-]. simpl. split.
  - destruct key; reflexivity.
  - apply bad_key_length_false in Hk. destruct key; exact Hk.
Qed.

Lemma constructed_key_is_valid_witness :
  EncryptionObfuscator.key
    (EncryptionObfuscator.Make EncryptionObfuscator.default_key)
  = default EncryptionObfuscator.default_key None /\
  (length (EncryptionObfuscator.key
             (EncryptionObfuscator.Make EncryptionObfuscator.default_key)) = 16%nat \/
   length (EncryptionObfuscator.key
             (EncryptionObfuscator.Make EncryptionObfuscator.default_key)) = 24%nat \/
   length (EncryptionObfuscator.key
             (EncryptionObfuscator.Make EncryptionObfuscator.default_key)) = 32%nat).
Proof.
  apply (constructed_key_is_valid None
           (EncryptionObfuscator.Make EncryptionObfuscator.default_key)).
  reflexivity.
Defined.

(** X16.  For an object made by the constructor, and a cipher package
    that keeps the EAX laws whenever it is present, [encrypt] raises
    exactly when the package is absent; it never hands back the
    plaintext in place of an error. *)
Theorem encrypt_fails_iff_no_cipher
    (AES : option EncryptionObfuscator.aes_module)
    (key : option bytes) (self : EncryptionObfuscator.t)
    (data : bytes) (g : rand_source) :
  (forall M, AES = Some M -> EncryptionObfuscator.aes_eax_laws M) ->
  EncryptionObfuscator.__init__ key = inr self ->
  ((exists e, EncryptionObfuscator.encrypt AES self data g = inl e)
   <-> AES = None).
Proof.
  intros Hlaws Hinit. unfold EncryptionObfuscator.encrypt.
  destruct AES as [M |].
  - split; [| discriminate]. intros [e He]. exfalso.
    assert (Hk : EncryptionObfuscator.bad_key_length
                   (EncryptionObfuscator.key self) = false).
    { unfold EncryptionObfuscator.__init__ in Hinit.
      destruct (EncryptionObfuscator.bad_key_length _) eqn:Hbad;
        [discriminate Hinit |].
      injection Hinit as <-. exact Hbad. }
    destruct (EncryptionObfuscator.new_accepts M (Hlaws M eq_refl) _ g Hk)
      as [c Hc].
    rewrite Hc in He.
    destruct (EncryptionObfuscator.encrypt_and_digest M c data). discriminate He.
  - split; [reflexivity |]. intros _. eauto.
Qed.

Lemma encrypt_fails_iff_no_cipher_witness :
  exists e,
    EncryptionObfuscator.encrypt None
      (EncryptionObfuscator.Make EncryptionObfuscator.default_key)
      [Byte.x61] zero_source = inl e.
Proof.
  assert (Hlaws : forall M, @None EncryptionObfuscator.aes_module = Some M ->
                    EncryptionObfuscator.aes_eax_laws M)
    by (intros M H; discriminate H).
  apply (proj2 (encrypt_fails_iff_no_cipher None None
                  (EncryptionObfuscator.Make EncryptionObfuscator.default_key)
                  [Byte.x61] zero_source Hlaws eq_refl)).
  reflexivity.
Defined.

(** X17.  The output of [encrypt] can be taken apart again: its first
    [nonce_len] bytes are the nonce, the next [tag_len] bytes the tag,
    and the rest is the ciphertext, as long as the plaintext. *)
Theorem encrypt_output_splits
    (M : EncryptionObfuscator.aes_module)
    (laws : EncryptionObfuscator.aes_eax_laws M)
    (self : EncryptionObfuscator.t) (data out : bytes) (g : rand_source) :
  EncryptionObfuscator.encrypt (Some M) self data g = inr out ->
  exists c,
    EncryptionObfuscator.aes_new M (EncryptionObfuscator.key self) g = inr c /\
    take (EncryptionObfuscator.nonce_len M) out
      = EncryptionObfuscator.cipher_nonce M c /\
    take (EncryptionObfuscator.tag_len M)
         (drop (EncryptionObfuscator.nonce_len M) out)
      = snd (EncryptionObfuscator.encrypt_and_digest M c data) /\
    drop (EncryptionObfuscator.nonce_len M + EncryptionObfuscator.tag_len M) out
      = fst (EncryptionObfuscator.encrypt_and_digest M c data) /\
    length (drop (EncryptionObfuscator.nonce_len M + EncryptionObfuscator.tag_len M)
              out) = length data.
Proof.
  unfold EncryptionObfuscator.encrypt.
  destruct (EncryptionObfuscator.aes_new M (EncryptionObfuscator.key self) g)
    as [e | c] eqn:Hc; [discriminate |].
  pose proof (EncryptionObfuscator.nonce_length M laws _ _ _ Hc) as Hn.
  pose proof (EncryptionObfuscator.tag_length M laws c data) as Ht.
  pose proof (EncryptionObfuscator.ciphertext_length M laws c data) as Hl.
  destruct (EncryptionObfuscator.encrypt_and_digest M c data) as [ct tag] eqn:Hed.
  simpl in Ht, Hl. intros [= <-]. exists c. rewrite Hed.
  split; [reflexivity |].
  split; [apply take_app_length'; symmetry; exact Hn |].
  assert (Hd1 : drop (EncryptionObfuscator.nonce_len M)
                  (EncryptionObfuscator.cipher_nonce M c ++ tag ++ ct) = tag ++ ct)
    by (apply drop_app_length'; symmetry; exact Hn).
  assert (Hd2 : drop (EncryptionObfuscator.nonce_len M + EncryptionObfuscator.tag_len M)
                  (EncryptionObfuscator.cipher_nonce M c ++ tag ++ ct) = ct).
  { rewrite <- drop_drop, Hd1. apply drop_app_length'. symmetry. exact Ht. }
  split; [rewrite Hd1; apply take_app_length'; symmetry; exact Ht |].
  simpl. rewrite Hd2. split; [reflexivity | exact Hl].
Qed.

Lemma encrypt_output_splits_witness :
  exists c,
    EncryptionObfuscator.aes_new EncryptionObfuscator.length_model
      EncryptionObfuscator.default_key zero_source = inr c /\
    take 16 (repeat Byte.x00 32 ++ [Byte.x62; Byte.x61])
      = EncryptionObfuscator.cipher_nonce EncryptionObfuscator.length_model c.
Proof.
  destruct (encrypt_output_splits EncryptionObfuscator.length_model
              length_model_laws
              (EncryptionObfuscator.Make EncryptionObfuscator.default_key)
              [Byte.x61; Byte.x62]
              (repeat Byte.x00 32 ++ [Byte.x62; Byte.x61]) zero_source eq_refl)
    as (c & Hc & Hn & _).
  exists c. split; [exact Hc | exact Hn].
Defined.

(** * The experiment driver *)

(** ** Address lookup *)

Lemma find_app_first {A} (f : A -> bool) (l1 l2 : list A) :
  List.find f (l1 ++ l2)
  = match List.find f l1 with Some x => Some x | None => List.find f l2 end.
Proof.
  induction l1 as [| x l1 IH]; simpl; [reflexivity |].
  destruct (f x); [reflexivity | exact IH].
Qed.

Lemma scan_addrs_find (addrs : list Runner.address) :
  Runner.scan_addrs addrs = Runner.addr_addr <$> List.find Runner.is_ipv4 addrs.
Proof.
  induction addrs as [| a addrs IH]; simpl; [reflexivity |].
  unfold Runner.is_ipv4 at 1. destruct (Runner.addr_type a) as [ty |].
  - destruct (ty =? Runner.VIR_IP_ADDR_TYPE_IPV4)%Z; [reflexivity | exact IH].
  - exact IH.
Qed.

Lemma scan_ifaces_find (ifaces : list (string * Runner.iface_info)) :
  Runner.scan_ifaces ifaces
  = Runner.addr_addr <$> List.find Runner.is_ipv4 (Runner.all_addrs ifaces).
Proof.
  induction ifaces as [| [name info] ifaces IH]; simpl; [reflexivity |].
  rewrite find_app_first, scan_addrs_find.
  destruct (List.find Runner.is_ipv4 (default [] (Runner.info_addrs info)));
    [reflexivity | exact IH].
Qed.

(** X18.  [get_domain_ip] answers with the ['addr'] field of the first
    entry of type IPv4, going through the interfaces in order and
    through each interface's addresses in order; interfaces without an
    ['addrs'] key are passed over.  It answers [None] when there is no
    such entry, when that first entry has no ['addr'] field (later IPv4
    entries are then not looked at), and on a [libvirtError]. *)
Theorem get_domain_ip_first_ipv4 (ifaces : list (string * Runner.iface_info)) :
  Runner.get_domain_ip (Some ifaces)
    = match List.find Runner.is_ipv4 (Runner.all_addrs ifaces) with
      | Some addr => Runner.addr_addr addr
      | None => None
      end /\
  Runner.get_domain_ip None = None.
Proof.
  split; [| reflexivity].
  unfold Runner.get_domain_ip. rewrite scan_ifaces_find.
  destruct (List.find Runner.is_ipv4 (Runner.all_addrs ifaces)); reflexivity.
Qed.

(** ** Waiting for an address *)

Lemma wait_loop_first_success (dom : Runner.domain) (n now : nat) res t :
  Runner.wait_loop dom n now = (res, t) ->
  (forall t', (now <= t' < t)%nat ->
     Runner.truthy_ip (Runner.get_domain_ip (dom t')) = None) /\
  match res with
  | Some ip => (now <= t < now + n)%nat /\
               Runner.truthy_ip (Runner.get_domain_ip (dom t)) = Some ip
  | None => t = (now + n)%nat
  end.
Proof.
  revert now. induction n as [| n IH]; intros now; simpl.
  - intros [= <- <-]. split; [intros t' Ht'; lia | lia].
  - destruct (Runner.truthy_ip (Runner.get_domain_ip (dom now))) as [ip |] eqn:Hnow.
    + intros [= <- <-]. split; [intros t' Ht'; lia |]. split; [lia | exact Hnow].
    + intros Hrest. destruct (IH (S now) Hrest) as [Hbefore Hres]. split.
      * intros t' Ht'. destruct (decide (t' = now)) as [-> | Hne];
          [exact Hnow | apply Hbefore; lia].
      * destruct res as [ip |]; [| lia].
        destruct Hres as [Ht Hip]. split; [lia | exact Hip].
Qed.

(** X19.  [wait_for_ip] returns the address of the first poll that
    gives a non-empty one, having slept one second after each earlier
    poll; it gives up with [None] after exactly [timeout] fruitless
    polls (15 by default), and at once when [timeout <= 0].  An answer
    of [None] or of the empty string counts as no address. *)
Theorem wait_for_ip_first_success
    (dom : Runner.domain) (timeout : option Z) (now : nat)
    (res : option string) (t : nat) :
  Runner.wait_for_ip dom timeout now = (res, t) ->
  (forall t', (now <= t' < t)%nat ->
     Runner.truthy_ip (Runner.get_domain_ip (dom t')) = None) /\
  match res with
  | Some ip => (now <= t < now + Z.to_nat (default 15%Z timeout))%nat /\
               Runner.truthy_ip (Runner.get_domain_ip (dom t)) = Some ip /\
               ip <> ""%string
  | None => t = (now + Z.to_nat (default 15%Z timeout))%nat
  end.
Proof.
  unfold Runner.wait_for_ip. intros H.
  destruct (wait_loop_first_success _ _ _ _ _ H) as [Hbefore Hres].
  split; [exact Hbefore |].
  destruct res as [ip |]; [| exact Hres].
  destruct Hres as [Ht Hip]. split; [exact Ht |]. split; [exact Hip |].
  unfold Runner.truthy_ip in Hip.
  destruct (Runner.get_domain_ip (dom t)) as [s |]; [| discriminate].
  destruct (String.eqb_spec s ""); [discriminate |]. congruence.
Qed.

Lemma wait_for_ip_first_success_witness :
  (forall t', (0 <= t' < 2)%nat ->
     Runner.truthy_ip
       (Runner.get_domain_ip
          ((fun t => if (t <? 2)%nat then None
                     else Some [("vnet0"%string,
                                 Runner.IfaceInfo
                                   (Some [Runner.Address (Some 0%Z)
                                            (Some "192.168.124.17"%string)]))]) t'))
     = None) /\
  (0 <= 2 < 0 + Z.to_nat (default 15%Z None))%nat /\
  Runner.truthy_ip
    (Runner.get_domain_ip
       ((fun t => if (t <? 2)%nat then None
                  else Some [("vnet0"%string,
                              Runner.IfaceInfo
                                (Some [Runner.Address (Some 0%Z)
                                         (Some "192.168.124.17"%string)]))]) 2%nat))
  = Some "192.168.124.17"%string /\
  "192.168.124.17"%string <> ""%string.
Proof.
  apply (wait_for_ip_first_success
           (fun t => if (t <? 2)%nat then None
                     else Some [("vnet0"%string,
                                 Runner.IfaceInfo
                                   (Some [Runner.Address (Some 0%Z)
                                            (Some "192.168.124.17"%string)]))])
           None 0%nat (Some "192.168.124.17"%string) 2%nat).
  reflexivity.
Defined.

(** X20.  Resolving the two endpoints: the source domain is polled
    from [now] until a second [t1], then the destination domain from
    [t1] until the second [t] of the return, each wait ending with its
    first non-empty address or after its 15 fruitless polls; so the
    destination is waited for also when the source has failed.  The
    call returns the two addresses exactly when both waits found one,
    and raises the [RuntimeError] otherwise.  It returns within 30
    seconds, and not before second [now + 15] when the source domain
    shows no address during its 15 polls. *)
Theorem resolve_endpoints_outcome
    (dom_source dom_dest : Runner.domain) (now : nat)
    (r : result (string * string)) (t : nat) :
  Runner.resolve_endpoints dom_source dom_dest now = (r, t) ->
  (now <= t <= now + 30)%nat /\
  (forall s d, r = inr (s, d) ->
     exists ts, (now <= ts <= t)%nat /\
       Runner.truthy_ip (Runner.get_domain_ip (dom_source ts)) = Some s /\
       Runner.truthy_ip (Runner.get_domain_ip (dom_dest t)) = Some d) /\
  ((forall t', (now <= t' < now + 15)%nat ->
      Runner.truthy_ip (Runner.get_domain_ip (dom_source t')) = None) ->
   (now + 15 <= t)%nat /\
   r = inl (RuntimeError "Could not obtain IP addresses for source/dest VMs.")) /\
  (exists t1,
     (now <= t1 <= now + 15)%nat /\
     (forall t', (now <= t' < t1)%nat ->
        Runner.truthy_ip (Runner.get_domain_ip (dom_source t')) = None) /\
     (t1 = (now + 15)%nat \/
      (t1 < now + 15)%nat /\
      is_Some (Runner.truthy_ip (Runner.get_domain_ip (dom_source t1)))) /\
     (t1 <= t <= t1 + 15)%nat /\
     (forall t', (t1 <= t' < t)%nat ->
        Runner.truthy_ip (Runner.get_domain_ip (dom_dest t')) = None) /\
     (t = (t1 + 15)%nat \/
      (t < t1 + 15)%nat /\
      is_Some (Runner.truthy_ip (Runner.get_domain_ip (dom_dest t)))) /\
     (forall s d,
        r = inr (s, d) <->
        (t1 < now + 15)%nat /\
        Runner.truthy_ip (Runner.get_domain_ip (dom_source t1)) = Some s /\
        (t < t1 + 15)%nat /\
        Runner.truthy_ip (Runner.get_domain_ip (dom_dest t)) = Some d) /\
     (forall e, r = inl e ->
        e = RuntimeError "Could not obtain IP addresses for source/dest VMs.")).
Proof.
  unfold Runner.resolve_endpoints, Runner.wait_for_ip.
  change (Z.to_nat (default 15%Z None)) with 15%nat.
  destruct (Runner.wait_loop dom_source 15 now) as [src t1] eqn:Hs.
  destruct (Runner.wait_loop dom_dest 15 t1) as [dst t2] eqn:Hd.
  destruct (wait_loop_first_success _ _ _ _ _ Hs) as [Hsb Hsrc].
  destruct (wait_loop_first_success _ _ _ _ _ Hd) as [Hdb Hdst].
  destruct src as [s |], dst as [d |]; intros [= <- <-].
  - destruct Hsrc as (Hts & Hs'), Hdst as (Htd & Hd').
    split; [lia |]. split; [| split].
    + intros s' d' [= <- <-]. exists t1. split; [lia |]. split; assumption.
    + intros Hnone. rewrite (Hnone t1) in Hs' by lia. discriminate Hs'.
    + exists t1. split; [lia |]. split; [exact Hsb |].
      split; [right; split; [lia | rewrite Hs'; eauto] |].
      split; [lia |]. split; [exact Hdb |].
      split; [right; split; [lia | rewrite Hd'; eauto] |].
      split; [| discriminate].
      intros s' d'. split.
      * intros [= <- <-]. repeat split; [lia | exact Hs' | lia | exact Hd'].
      * intros (_ & Hs2 & _ & Hd2). congruence.
  - destruct Hsrc as (Hts & Hs'). subst t2.
    split; [lia |]. split; [discriminate |]. split.
    + intros Hnone. rewrite (Hnone t1) in Hs' by lia. discriminate Hs'.
    + exists t1. split; [lia |]. split; [exact Hsb |].
      split; [right; split; [lia | rewrite Hs'; eauto] |].
      split; [lia |]. split; [exact Hdb |]. split; [left; reflexivity |].
      split; [| intros e [= <-]; reflexivity].
      intros s' d'. split; [discriminate | lia].
  - destruct Hdst as (Htd & Hd'). subst t1.
    split; [lia |]. split; [discriminate |]. split.
    + intros _. split; [lia | reflexivity].
    + exists (now + 15)%nat. split; [lia |]. split; [exact Hsb |].
      split; [left; reflexivity |].
      split; [lia |]. split; [exact Hdb |].
      split; [right; split; [lia | rewrite Hd'; eauto] |].
      split; [| intros e [= <-]; reflexivity].
      intros s' d'. split; [discriminate | lia].
  - subst t1 t2. split; [lia |]. split; [discriminate |]. split.
    + intros _. split; [lia | reflexivity].
    + exists (now + 15)%nat. split; [lia |]. split; [exact Hsb |].
      split; [left; reflexivity |].
      split; [lia |]. split; [exact Hdb |]. split; [left; reflexivity |].
      split; [| intros e [= <-]; reflexivity].
      intros s' d'. split; [discriminate | lia].
Qed.

Lemma resolve_endpoints_outcome_witness :
  (0 <= 30 <= 0 + 30)%nat.
Proof.
  apply (proj1 (resolve_endpoints_outcome (fun _ => None) (fun _ => None) 0%nat
                  (inl (RuntimeError
                          "Could not obtain IP addresses for source/dest VMs."))
                  30%nat eq_refl)).
Defined.

(** ** Transforms per scenario *)

Lemma pad_within_bounds
    (self : PaddingObfuscator.t) (data : bytes) (g : rand_source) :
  (0 <= PaddingObfuscator.min_pad self <= PaddingObfuscator.max_pad self)%Z ->
  exists n,
    (PaddingObfuscator.min_pad self <= n <= PaddingObfuscator.max_pad self)%Z /\
    PaddingObfuscator.pad self data g = inr (data ++ urandom (Z.to_nat n) g).
Proof.
  intros [Hmin Hle]. unfold PaddingObfuscator.pad, PaddingObfuscator.pad_length.
  destruct (Z.ltb_spec 0 (PaddingObfuscator.max_pad self)) as [Hpos | Hzero].
  - destruct (randint_in_range _ _ g Hle) as (n & -> & Hn). exists n.
    split; [exact Hn |].
    destruct (Z.leb_spec n 0) as [Hn0 | Hn0]; [| reflexivity].
    assert (n = 0%Z) as -> by lia. simpl. rewrite app_nil_r. reflexivity.
  - exists 0%Z. split; [lia |]. simpl. rewrite app_nil_r. reflexivity.
Qed.

Lemma encrypt_length
    (M : EncryptionObfuscator.aes_module)
    (laws : EncryptionObfuscator.aes_eax_laws M)
    (self : EncryptionObfuscator.t) (data : bytes) (g : rand_source) :
  EncryptionObfuscator.bad_key_length (EncryptionObfuscator.key self) = false ->
  exists out,
    EncryptionObfuscator.encrypt (Some M) self data g = inr out /\
    length out = (EncryptionObfuscator.nonce_len M
                  + EncryptionObfuscator.tag_len M + length data)%nat.
Proof.
  intros Hk. unfold EncryptionObfuscator.encrypt.
  destruct (EncryptionObfuscator.new_accepts M laws _ g Hk) as [c Hc].
  rewrite Hc.
  pose proof (EncryptionObfuscator.nonce_length M laws _ _ _ Hc) as Hn.
  pose proof (EncryptionObfuscator.tag_length M laws c data) as Ht.
  pose proof (EncryptionObfuscator.ciphertext_length M laws c data) as Hl.
  destruct (EncryptionObfuscator.encrypt_and_digest M c data) as [ct tag].
  simpl in Ht, Hl. eexists. split; [reflexivity |].
  rewrite !length_app. lia.
Qed.

(** X21.  Setting up the tools of a scenario never fails, and a
    scenario switches on the one tool it names and no other:
    ["encryption"] the encryptor (with the default key), ["padding"] the
    padder (0 to 50 bytes), ["shaping"] the shaper (random mode, 0.01 s
    to 0.1 s).  Any other name, ["baseline"] included, switches on
    nothing. *)
Theorem scenario_enables_one_tool (scenario : string) :
  exists tr,
    Runner.make_transforms scenario = inr tr /\
    Runner.encryptor tr
      = (if String.eqb scenario "encryption"
         then Some (EncryptionObfuscator.Make EncryptionObfuscator.default_key)
         else None) /\
    Runner.padder tr
      = (if String.eqb scenario "padding"
         then Some (PaddingObfuscator.Make 0 50) else None) /\
    Runner.shaper tr
      = (if String.eqb scenario "shaping"
         then Some (TrafficShaper.Make "random" (1 # 100) (1 # 10) None)
         else None) /\
    (is_Some (Runner.encryptor tr) -> Runner.padder tr = None /\ Runner.shaper tr = None) /\
    (is_Some (Runner.padder tr) -> Runner.shaper tr = None) /\
    (scenario <> "encryption"%string -> scenario <> "padding"%string ->
     scenario <> "shaping"%string ->
     tr = Runner.Transforms None None None).
Proof.
  unfold Runner.make_transforms.
  destruct (String.eqb_spec scenario "encryption") as [-> | He];
  [| destruct (String.eqb_spec scenario "padding") as [-> | Hp];
     [| destruct (String.eqb_spec scenario "shaping") as [-> | Hs]]];
    simpl; eexists; (split; [reflexivity |]); simpl;
    (split; [reflexivity |]); (split; [reflexivity |]); (split; [reflexivity |]);
    (split; [intros H; try (destruct H as [x Hx]; discriminate Hx);
             split; reflexivity |]);
    (split; [intros H; try (destruct H as [x Hx]; discriminate Hx);
             reflexivity |]);
    intros H1 H2 H3; try congruence; reflexivity.
Qed.

(** X22.  The payload of a UDP packet, by scenario.  Under
    ["encryption"] it is [nonce_len + tag_len + 500] bytes long when the
    cipher package is present, and sending fails with the
    [RuntimeError] when it is absent.  Under ["padding"] it is the 500
    bytes [x] followed by at most 50 bytes.  Under every other name it
    is the 500 bytes [x] unchanged. *)
Theorem scenario_payload
    (AES : option EncryptionObfuscator.aes_module)
    (scenario : string) (tr : Runner.transforms) (g_pad g_enc : rand_source) :
  Runner.make_transforms scenario = inr tr ->
  length Runner.base_payload = 500%nat /\
  (scenario = "encryption"%string ->
     (forall M, AES = Some M -> EncryptionObfuscator.aes_eax_laws M ->
        exists out,
          Runner.build_payload AES tr g_pad g_enc = inr out /\
          length out = (EncryptionObfuscator.nonce_len M
                        + EncryptionObfuscator.tag_len M + 500)%nat) /\
     (AES = None ->
        exists msg,
          Runner.build_payload AES tr g_pad g_enc = inl (RuntimeError msg))) /\
  (scenario = "padding"%string ->
     exists suffix,
       Runner.build_payload AES tr g_pad g_enc
         = inr (Runner.base_payload ++ suffix) /\
       (length suffix <= 50)%nat) /\
  (scenario <> "encryption"%string -> scenario <> "padding"%string ->
     Runner.build_payload AES tr g_pad g_enc = inr Runner.base_payload).
Proof.
  intros Htr. split; [reflexivity |].
  unfold Runner.make_transforms in Htr. unfold Runner.build_payload.
  split; [| split].
  - intros ->. simpl in Htr. injection Htr as <-. simpl. split.
    + intros M -> laws.
      destruct (encrypt_length M laws
                  (EncryptionObfuscator.Make EncryptionObfuscator.default_key)
                  Runner.base_payload g_enc eq_refl) as (out & Hout & Hlen).
      exists out. split; [exact Hout | exact Hlen].
    + intros ->. eexists. reflexivity.
  - intros ->. simpl in Htr. injection Htr as <-. simpl.
    destruct (pad_within_bounds (PaddingObfuscator.Make 0 50)
                Runner.base_payload g_pad) as (n & Hn & Hpadded);
      [simpl; lia |].
    unfold PaddingObfuscator.__init__. simpl. rewrite Hpadded.
    eexists. split; [reflexivity |]. rewrite urandom_length. simpl in Hn. lia.
  - intros He Hp.
    destruct (String.eqb_spec scenario "encryption"); [contradiction |].
    destruct (String.eqb_spec scenario "padding"); [contradiction |].
    injection Htr as <-. reflexivity.
Qed.

Lemma scenario_payload_witness :
  exists suffix,
    Runner.build_payload None
      (Runner.Transforms None (Some (PaddingObfuscator.Make 0 50)) None)
      (RandSource 7 0 (fun _ => Byte.x00)) zero_source
      = inr (Runner.base_payload ++ suffix) /\
    (length suffix <= 50)%nat.
Proof.
  apply (proj1 (proj2 (proj2
           (scenario_payload None "padding"
              (Runner.Transforms None (Some (PaddingObfuscator.Make 0 50)) None)
              (RandSource 7 0 (fun _ => Byte.x00)) zero_source eq_refl)))).
  reflexivity.
Defined.

(** X23.  When a padder and an encryptor are both in use, the payload
    is padded first and the padded payload is encrypted: with bounds
    [0 <= min_pad <= max_pad], a key of a valid length and the cipher
    package present, the result is
    [nonce_len + tag_len + 500 + n] bytes long for some
    [min_pad <= n <= max_pad]. *)
Theorem pad_then_encrypt_length
    (M : EncryptionObfuscator.aes_module)
    (laws : EncryptionObfuscator.aes_eax_laws M)
    (p : PaddingObfuscator.t) (e : EncryptionObfuscator.t)
    (sh : option TrafficShaper.t) (g_pad g_enc : rand_source) :
  (0 <= PaddingObfuscator.min_pad p <= PaddingObfuscator.max_pad p)%Z ->
  EncryptionObfuscator.bad_key_length (EncryptionObfuscator.key e) = false ->
  exists (n : Z) (padded out : bytes),
    (PaddingObfuscator.min_pad p <= n <= PaddingObfuscator.max_pad p)%Z /\
    PaddingObfuscator.pad p Runner.base_payload g_pad = inr padded /\
    EncryptionObfuscator.encrypt (Some M) e padded g_enc = inr out /\
    Runner.build_payload (Some M) (Runner.Transforms (Some e) (Some p) sh)
      g_pad g_enc = inr out /\
    Z.of_nat (length out)
    = (Z.of_nat (EncryptionObfuscator.nonce_len M)
       + Z.of_nat (EncryptionObfuscator.tag_len M) + 500 + n)%Z.
Proof.
  intros Hp Hk.
  destruct (pad_within_bounds p Runner.base_payload g_pad Hp) as (n & Hn & Hpad).
  destruct (encrypt_length M laws e
              (Runner.base_payload ++ urandom (Z.to_nat n) g_pad) g_enc Hk)
    as (out & Hout & Hlen).
  exists n, (Runner.base_payload ++ urandom (Z.to_nat n) g_pad), out.
  split; [exact Hn |]. split; [exact Hpad |]. split; [exact Hout |].
  split.
  - unfold Runner.build_payload. simpl. rewrite Hpad. exact Hout.
  - rewrite Hlen, length_app, urandom_length.
    change (length Runner.base_payload) with 500%nat. lia.
Qed.

Lemma pad_then_encrypt_length_witness :
  exists (n : Z) (padded out : bytes),
    (2 <= n <= 5)%Z /\
    PaddingObfuscator.pad (PaddingObfuscator.Make 2 5) Runner.base_payload
      zero_source = inr padded /\
    EncryptionObfuscator.encrypt (Some EncryptionObfuscator.length_model)
      (EncryptionObfuscator.Make EncryptionObfuscator.default_key)
      padded zero_source = inr out /\
    Runner.build_payload (Some EncryptionObfuscator.length_model)
      (Runner.Transforms
         (Some (EncryptionObfuscator.Make EncryptionObfuscator.default_key))
         (Some (PaddingObfuscator.Make 2 5)) None)
      zero_source zero_source = inr out /\
    Z.of_nat (length out) = (Z.of_nat 16 + Z.of_nat 16 + 500 + n)%Z.
Proof.
  apply (pad_then_encrypt_length EncryptionObfuscator.length_model
           length_model_laws (PaddingObfuscator.Make 2 5)
           (EncryptionObfuscator.Make EncryptionObfuscator.default_key)
           None zero_source zero_source).
  - simpl. lia.
  - reflexivity.
Defined.

Lemma uniform_within_bounds (a b : Q) (g : rand_source) :
  a <= b -> 0 <= rand_unit g -> rand_unit g <= 1 ->
  a <= uniform a b g /\ uniform a b g <= b.
Proof.
  intros Hab Hu0 Hu1. unfold uniform.
  set (u := rand_unit g) in *. split; nra.
Qed.

(** X24.  The shaper call before each UDP packet (lines 112-113)
    sleeps only under the ["shaping"] scenario: there it sleeps between
    0.01 s and 0.1 s, whatever the length of the packet; under every
    other scenario name the call is skipped.  (The fixed sleeps of
    [run_experiment], lines 56 and 94, are a different matter and are
    not part of this statement.) *)
Theorem scenario_sleep
    (scenario : string) (tr : Runner.transforms)
    (header_len : nat) (payload : bytes) (g : rand_source) :
  Runner.make_transforms scenario = inr tr ->
  0 <= rand_unit g -> rand_unit g <= 1 ->
  (scenario = "shaping"%string ->
     exists d, Runner.shaping_sleep tr header_len payload g = Some d /\
               (1 # 100) <= d /\ d <= (1 # 10)) /\
  (scenario <> "shaping"%string ->
     Runner.shaping_sleep tr header_len payload g = None).
Proof.
  intros Htr Hu0 Hu1. unfold Runner.make_transforms in Htr.
  unfold Runner.shaping_sleep. split.
  - intros ->. simpl in Htr. injection Htr as <-. simpl.
    eexists. split; [reflexivity |].
    apply uniform_within_bounds; [discriminate | exact Hu0 | exact Hu1].
  - intros Hs.
    destruct (String.eqb_spec scenario "shaping"); [contradiction |].
    destruct (String.eqb scenario "encryption"); simpl in Htr;
      injection Htr as <-; reflexivity.
Qed.

Lemma scenario_sleep_witness :
  exists d,
    Runner.shaping_sleep
      (Runner.Transforms None None
         (Some (TrafficShaper.Make "random" (1 # 100) (1 # 10) None)))
      28 Runner.base_payload (RandSource 0 (1 # 3) (fun _ => Byte.x00)) = Some d /\
    (1 # 100) <= d /\ d <= (1 # 10).
Proof.
  apply (proj1 (scenario_sleep "shaping"
                  (Runner.Transforms None None
                     (Some (TrafficShaper.Make "random" (1 # 100) (1 # 10) None)))
                  28 Runner.base_payload (RandSource 0 (1 # 3) (fun _ => Byte.x00))
                  eq_refl ltac:(discriminate) ltac:(discriminate))).
  reflexivity.
Defined.

(** ** CPU percentages *)

Lemma percent_nonneg (c : Q) (d : Z) :
  0 <= c -> (0 < d)%Z -> 0 <= c / inject_Z d * 100.
Proof.
  intros Hc Hd.
  assert (Hpos : 0 < inject_Z d) by (unfold Qlt; simpl; lia).
  assert (0 <= c / inject_Z d) by (apply Qle_shift_div_l; [exact Hpos | lra]).
  lra.
Qed.

(** X25.  The sender's wall time [max(1, duration - 2)] is at least one
    second for every [duration], so the sender's CPU percentage is
    always the quotient [cpu_time / max(1, duration - 2) * 100] (the
    branch that yields 0.0 is never taken), and it is not negative for
    a non-negative CPU time. *)
Theorem send_cpu_percent_always_quotient (send_cpu_time : Q) (duration : Z) :
  (1 <= Runner.send_duration duration)%Z /\
  (duration - 2 <= Runner.send_duration duration)%Z /\
  Runner.send_cpu_percent send_cpu_time duration
    = send_cpu_time / inject_Z (Runner.send_duration duration) * 100 /\
  (0 <= send_cpu_time -> 0 <= Runner.send_cpu_percent send_cpu_time duration).
Proof.
  assert (H1 : (1 <= Runner.send_duration duration)%Z)
    by (unfold Runner.send_duration; lia).
  assert (Heq : Runner.send_cpu_percent send_cpu_time duration
                = send_cpu_time / inject_Z (Runner.send_duration duration) * 100).
  { unfold Runner.send_cpu_percent.
    destruct (Z.ltb_spec 0 (Runner.send_duration duration)); [reflexivity | lia]. }
  split; [exact H1 |]. split; [unfold Runner.send_duration; lia |].
  split; [exact Heq |].
  intros Hc. rewrite Heq. apply percent_nonneg; [exact Hc | lia].
Qed.

Lemma send_cpu_percent_always_quotient_witness :
  0 <= Runner.send_cpu_percent (3 # 10) 1.
Proof.
  apply (proj2 (proj2 (proj2 (send_cpu_percent_always_quotient (3 # 10) 1)))).
  discriminate.
Defined.

(** X26.  The sniffer's CPU percentage is 0 for a capture duration that
    is zero or negative (no division takes place), and otherwise
    [cpu_time / duration * 100], not negative for a non-negative CPU
    time. *)
Theorem cpu_percent_defined (cpu_time : Q) (duration : Z) :
  ((duration <= 0)%Z -> cpu_percent cpu_time duration = 0) /\
  ((0 < duration)%Z ->
     cpu_percent cpu_time duration = cpu_time / inject_Z duration * 100) /\
  (0 <= cpu_time -> 0 <= cpu_percent cpu_time duration).
Proof.
  unfold cpu_percent. destruct (Z.ltb_spec 0 duration) as [Hd | Hd].
  - split; [lia |]. split; [reflexivity |].
    intros Hc. apply percent_nonneg; assumption.
  - split; [reflexivity |]. split; [lia |]. intros _. apply Qle_refl.
Qed.

Lemma cpu_percent_defined_witness : cpu_percent (1 # 2) 0 = 0.
Proof.
  apply (proj1 (cpu_percent_defined (1 # 2) 0)). lia.
Defined.

(** ** Which scenarios are run *)


